(** * Transform decorators and the classical Jacobian of PennyLane

    A shallow embedding of [pennylane/transforms/decorators.py] and
    [pennylane/transforms/classical_jacobian.py].

    Python code that threads the process-wide queuing context is written
    in a state-and-exception monad; closures returned by the decorators
    are Rocq functions; the dynamic type tests of the source
    ([callable], [isinstance]) are case analyses on small tagged unions. *)

From Stdlib Require Import ZArith.
From stdpp Require Import gmap strings list.

Set Default Proof Using "Type".

(** ** Exceptions and the state-and-exception monad *)

Inductive exn : Type :=
  | ValueError (msg : string)
  | TypeError (msg : string)
  | IndexError (msg : string)
  | AttributeError (msg : string)
  | NameError (name : string)
  | UnboundLocalError (name : string)
  | UserError (msg : string).

Inductive outcome (A : Type) : Type :=
  | Return (a : A)
  | Raise (e : exn).
Arguments Return {A} a.
Arguments Raise {A} e.

(** A computation reads and writes a state of type [S]; a raised
    exception keeps the state reached so far, which is what the exit
    handlers of a [with] statement then see. *)
Definition M (S A : Type) : Type := S -> outcome A * S.

Definition ret {S A} (a : A) : M S A := fun σ => (Return a, σ).
Definition raise {S A} (e : exn) : M S A := fun σ => (Raise e, σ).
Definition bind {S A B} (m : M S A) (k : A -> M S B) : M S B :=
  fun σ => match m σ with
           | (Return a, σ') => k a σ'
           | (Raise e, σ') => (Raise e, σ')
           end.
Definition gets {S A} (f : S -> A) : M S A := fun σ => (Return (f σ), σ).
Definition modify {S} (f : S -> S) : M S unit := fun σ => (Return tt, f σ).
Definition lift {S A} (o : outcome A) : M S A := fun σ => (o, σ).

Declare Scope py_scope.
Delimit Scope py_scope with py.
Notation "x <- c ;; k" := (bind c (fun x => k))
  (at level 100, c at next level, right associativity) : py_scope.
Notation "c ;;; k" := (bind c (fun _ => k))
  (at level 100, right associativity) : py_scope.
Open Scope py_scope.

(** [with enter as r: body]: the exit handler runs on every path out of
    the body.  The handlers of this file return [None], so an exception
    of the body is re-raised after the handler has run; an exception of
    the handler itself replaces it. *)
Definition with_ {S R A} (enter : M S R) (exit : R -> M S unit) (body : R -> M S A)
  : M S A :=
  fun σ => match enter σ with
           | (Raise e, σ1) => (Raise e, σ1)
           | (Return r, σ1) =>
               let '(res, σ2) := body r σ1 in
               match exit r σ2 with
               | (Return _, σ3) => (res, σ3)
               | (Raise e, σ3) => (Raise e, σ3)
               end
           end.

(** [for x in l: f x] *)
Fixpoint for_ {S A} (l : list A) (f : A -> M S unit) : M S unit :=
  match l with
  | [] => ret tt
  | x :: l' => f x ;;; for_ l' f
  end.

(** ** Queued objects *)

Definition Args : Type := list Z.

(** The payload of an operation or measurement.  Parameter values are
    carried, never computed with. *)
Record OpData : Type := mkOp {
  name : string;
  parameters : list Z;
  wires : list nat;
  is_measurement : bool
}.

(** Python keys a queue by object identity, so every object carries the
    identity it was allocated with. *)
Inductive Obj : Type :=
  | Operation (id : nat) (d : OpData)
  | TapeRef (id : nat).

Definition obj_id (o : Obj) : nat :=
  match o with Operation id _ => id | TapeRef id => id end.

(** The keyword arguments stored with a queued object. *)
Definition Info : Type := list (string * nat).

Definition Queue : Type := list (Obj * Info).

Definition objects (q : Queue) : list Obj := q.*1.

(** [self._queue[obj] = kwargs] on an ordered dictionary: a key already
    present keeps its place and gets the new value. *)
Fixpoint _append (obj : Obj) (info : Info) (q : Queue) : Queue :=
  match q with
  | [] => [(obj, info)]
  | (o, i) :: q' =>
      if decide (obj_id o = obj_id obj) then (o, info) :: q'
      else (o, i) :: _append obj info q'
  end.

(** [del self._queue[obj]] *)
Fixpoint _remove (obj : Obj) (q : Queue) : Queue :=
  match q with
  | [] => []
  | (o, i) :: q' =>
      if decide (obj_id o = obj_id obj) then q' else (o, i) :: _remove obj q'
  end.

(** ** Tapes and the queuing context *)

(** The runtime class of a tape: its own concrete class, and whether the
    [NonQueuingTape] mixin has been fused in front of it. *)
Record TapeClass : Type := mkClass {
  class_name : string;
  non_queuing : bool
}.

Definition QuantumTape : TapeClass := mkClass "QuantumTape" false.
Definition JacobianTape : TapeClass := mkClass "JacobianTape" false.

(** [type(tape.__class__.__name__, (NonQueuingTape, tape.__class__), {})].
    A class that already has the mixin in front cannot be given it
    again: with bases [(NonQueuingTape, C)], where [C] itself derives
    from [NonQueuingTape], no method resolution order exists and
    [type] raises. *)
Definition fuse_NonQueuingTape (c : TapeClass) : outcome TapeClass :=
  if non_queuing c then
    Raise (TypeError "Cannot create a consistent method resolution order (MRO) for bases NonQueuingTape")
  else Return (mkClass (class_name c) true).

Record Tape : Type := mkTape {
  tape_class : TapeClass;
  _queue : Queue;
  recording : bool
}.

Definition measures (o : Obj) : bool :=
  match o with
  | Operation _ d => is_measurement d
  | TapeRef _ => false
  end.

Definition operations (t : Tape) : list Obj :=
  filter (fun o => measures o = false) (objects (_queue t)).

Definition measurements (t : Tape) : list Obj :=
  filter (fun o => measures o = true) (objects (_queue t)).

(** Modelled from the spec: the queuing context, which is not part of the
    two source files.  It is a process-wide stack of recording scopes
    (head = top of stack); an object registers itself with the top scope
    unless that scope has been told to stop recording.  Tapes live in a
    heap, addressed by identity, because the source mutates them in
    place and reaches them through several references. *)
Record Context : Type := mkContext {
  heap : gmap nat Tape;
  _active_contexts : list nat;
  next_id : nat
}.

Definition set_heap (h : gmap nat Tape) (σ : Context) : Context :=
  mkContext h (_active_contexts σ) (next_id σ).

Definition set_active_contexts (s : list nat) (σ : Context) : Context :=
  mkContext (heap σ) s (next_id σ).

Definition with_queue (f : Queue -> Queue) (T : Tape) : Tape :=
  mkTape (tape_class T) (f (_queue T)) (recording T).

Definition with_recording (b : bool) (T : Tape) : Tape :=
  mkTape (tape_class T) (_queue T) b.

Definition with_class (c : TapeClass) (T : Tape) : Tape :=
  mkTape c (_queue T) (recording T).

Definition update_tape (t : nat) (f : Tape -> Tape) (σ : Context) : Context :=
  set_heap (alter f t (heap σ)) σ.

(** Object allocation: a fresh identity. *)
Definition fresh : M Context nat :=
  fun σ => (Return (next_id σ),
            mkContext (heap σ) (_active_contexts σ) (S (next_id σ))).

(** Dereferencing a tape.  A Python reference always points to a live
    object; the error branch only makes the function total. *)
Definition lookup_tape (t : nat) : M Context Tape :=
  fun σ => match heap σ !! t with
           | Some T => (Return T, σ)
           | None => (Raise (AttributeError "no such tape"), σ)
           end.

(** Modelled from the spec: [QueuingContext.active_context], the scope on
    top of the stack, if any. *)
Definition active_context (σ : Context) : option nat := head (_active_contexts σ).

(** Modelled from the spec: the scope that would record an object queued
    now: the top of the stack, unless it was told to stop recording. *)
Definition recording_scope (σ : Context) : option nat :=
  match active_context σ with
  | Some t => match heap σ !! t with
              | Some T => if recording T then Some t else None
              | None => None
              end
  | None => None
  end.

(** Modelled from the spec: [qml.tape.get_active_tape()]. *)
Definition get_active_tape : M Context (option nat) := gets active_context.

(** Modelled from the spec: [QueuingContext.append(obj, **info)]. *)
Definition QueuingContext_append (obj : Obj) (info : Info) : M Context unit :=
  modify (fun σ => match recording_scope σ with
                   | Some t => update_tape t (with_queue (_append obj info)) σ
                   | None => σ
                   end).

(** Modelled from the spec: [QueuingContext.remove(obj)]. *)
Definition QueuingContext_remove (obj : Obj) : M Context unit :=
  modify (fun σ => match recording_scope σ with
                   | Some t => update_tape t (with_queue (_remove obj)) σ
                   | None => σ
                   end).

(** Modelled from the spec: the scoped toggle [tape.stop_recording()].
    Entering remembers whether the scope was recording and stops it;
    leaving puts the remembered flag back, on every exit path. *)
Definition stop_recording_enter (t : nat) : M Context bool :=
  T <- lookup_tape t ;;
  modify (update_tape t (with_recording false)) ;;;
  ret (recording T).

Definition stop_recording_exit (t : nat) (was : bool) : M Context unit :=
  modify (update_tape t (with_recording was)).

(** Constructing a tape of class [c]: a fresh, empty, recording tape. *)
Definition construct_tape (c : TapeClass) : M Context nat :=
  t <- fresh ;;
  modify (fun σ => set_heap (<[t := mkTape c [] true]> (heap σ)) σ) ;;;
  ret t.

(** [QuantumTape._process_queue]: the operation and measurement lists of
    this model are views of the queue, so there is nothing to rebuild. *)
Definition QuantumTape__process_queue (t : nat) : M Context unit := ret tt.

(** [NonQueuingTape._process_queue] *)
Definition NonQueuingTape__process_queue (t : nat) : M Context unit :=
  QuantumTape__process_queue t ;;;
  T <- lookup_tape t ;;
  for_ (_queue T) (fun '(obj, info) => QueuingContext_append obj info) ;;;
  QueuingContext_remove (TapeRef t).

(** Method resolution: the mixin, when fused in, comes first. *)
Definition _process_queue (t : nat) : M Context unit :=
  T <- lookup_tape t ;;
  if non_queuing (tape_class T) then NonQueuingTape__process_queue t
  else QuantumTape__process_queue t.

(** Modelled from the spec: a tape used as a scope.  On entry it
    registers itself with the scope recording at that moment (this is
    the nested tape that [NonQueuingTape] later removes) and is pushed;
    on exit it is popped and its queue is processed. *)
Definition tape_enter (t : nat) : M Context unit :=
  QueuingContext_append (TapeRef t) [] ;;;
  modify (fun σ => set_active_contexts (t :: _active_contexts σ) σ).

Definition tape_exit (t : nat) : M Context unit :=
  modify (fun σ => set_active_contexts (tail (_active_contexts σ)) σ) ;;;
  _process_queue t.

(** ** User code *)

(** What user code does to the queuing context: it instantiates
    operations, which queue themselves, and calls [op.queue()] on
    existing objects; it may end by raising. *)
Inductive Cmd : Type :=
  | Instantiate (d : OpData)
  | Requeue (o : Obj).

Record Body : Type := mkBody {
  cmds : list Cmd;
  raises : option exn
}.

Definition run_cmd (c : Cmd) : M Context unit :=
  match c with
  | Instantiate d => id <- fresh ;; QueuingContext_append (Operation id d) []
  | Requeue o => QueuingContext_append o []
  end.

Definition run_body (b : Body) : M Context unit :=
  for_ (cmds b) run_cmd ;;;
  match raises b with
  | Some e => raise e
  | None => ret tt
  end.

(** A quantum function instantiates operations and measurements. *)
Record QBody : Type := mkQBody {
  qops : list OpData;
  qraises : option exn
}.

Definition QFunc : Type := Args -> QBody.

Definition call_qfunc (fn : QFunc) (args : Args) : M Context unit :=
  run_body (mkBody (Instantiate <$> qops (fn args)) (qraises (fn args))).

(** ** [make_tape] *)

Definition make_tape (fn : QFunc) : Args -> M Context nat :=
  fun args =>
    active_tape <- get_active_tape ;;
    match active_tape with
    | Some a =>
        with_ (stop_recording_enter a) (stop_recording_exit a)
          (fun _ =>
             A <- lookup_tape a ;;
             tape <- construct_tape (tape_class A) ;;
             with_ (tape_enter tape) (fun _ => tape_exit tape)
               (fun _ => call_qfunc fn args) ;;;
             ret tape)
    | None =>
        tape <- construct_tape QuantumTape ;;
        with_ (tape_enter tape) (fun _ => tape_exit tape)
          (fun _ => call_qfunc fn args) ;;;
        ret tape
    end.

(** ** [single_tape_transform] *)

(** What [callable(x)] distinguishes. *)
Inductive PyObj (F : Type) : Type :=
  | NotCallable (repr : string)
  | Callable (f : F).
Arguments NotCallable {F} repr.
Arguments Callable {F} f.

(** A tape transform function: the length of its signature, and what its
    body queues when called on [(tape, *args)]. *)
Record TransformFunction : Type := mkTransformFunction {
  tf_parameters : nat;
  tf_body : Tape -> Args -> Body
}.

Record single_tape_transform : Type := mk_single_tape_transform {
  transform_fn : TransformFunction
}.

Definition single_tape_transform__init__ (transform_fn : PyObj TransformFunction)
  : outcome single_tape_transform :=
  match transform_fn with
  | NotCallable _ =>
      Raise (ValueError "The tape transform function to register does not appear to be a valid Python function or callable.")
  | Callable f => Return (mk_single_tape_transform f)
  end.

Definition single_tape_transform__call__
    (self : single_tape_transform) (tape : nat) (args : Args) : M Context nat :=
  T <- lookup_tape tape ;;
  fused_class <- lift (fuse_NonQueuingTape (tape_class T)) ;;
  new_tape <- construct_tape fused_class ;;
  with_ (tape_enter new_tape) (fun _ => tape_exit new_tape)
    (fun _ =>
       T' <- lookup_tape tape ;;
       run_body (tf_body (transform_fn self) T' args)) ;;;
  modify (update_tape new_tape (with_class (tape_class T))) ;;;
  ret new_tape.

(** ** [qfunc_transform] *)

Inductive TapeTransformArg : Type :=
  | Registered (t : single_tape_transform)
  | Unregistered (o : PyObj TransformFunction).

Definition QfuncWrapper : Type := Args -> M Context (list Obj).

Definition qfunc_internal_wrapper
    (tape_transform : single_tape_transform) (targs : Args) (fn : QFunc)
  : QfuncWrapper :=
  fun args =>
    tape <- make_tape fn args ;;
    tape <- single_tape_transform__call__ tape_transform tape targs ;;
    T <- lookup_tape tape ;;
    ret (measurements T).

Definition qfunc_wrapper
    (tape_transform : single_tape_transform) (targs : Args) (fn : PyObj QFunc)
  : outcome QfuncWrapper :=
  match fn with
  | NotCallable _ =>
      Raise (ValueError "The qfunc to transform does not appear to be a valid Python function or callable.")
  | Callable f => Return (qfunc_internal_wrapper tape_transform targs f)
  end.

(** The two shapes of [make_qfunc_transform], each with its [tape_fn]
    attribute. *)
Inductive QfuncTransform : Type :=
  | QfuncFactory (make_qfunc_transform : Args -> PyObj QFunc -> outcome QfuncWrapper)
                 (tape_fn : single_tape_transform)
  | QfuncDecorator (make_qfunc_transform : PyObj QFunc -> outcome QfuncWrapper)
                   (tape_fn : single_tape_transform).

(** The first test of the source asks whether the class
    [single_tape_transform] is callable, which every class is. *)
Definition callable_class_single_tape_transform : bool := true.

Definition qfunc_transform (tape_transform : TapeTransformArg) : outcome QfuncTransform :=
  if negb callable_class_single_tape_transform then
    Raise (ValueError "The qfunc_transform decorator can only be applied to single tape transform functions.")
  else
    match (match tape_transform with
           | Registered t => Return t
           | Unregistered o => single_tape_transform__init__ o
           end) with
    | Raise e => Raise e
    | Return tape_transform =>
        let params := tf_parameters (transform_fn tape_transform) in
        if decide (1 < params) then
          Return (QfuncFactory (fun targs => qfunc_wrapper tape_transform targs)
                               tape_transform)
        else if decide (params = 1) then
          Return (QfuncDecorator (qfunc_wrapper tape_transform []) tape_transform)
        else Raise (UnboundLocalError "make_qfunc_transform")
    end.

(** ** [qnode_transform] *)

(** Return annotations, as far as the registrar tells them apart. *)
Inductive Annotation : Type :=
  | inspect_empty
  | ann_QuantumTape
  | ann_List_QuantumTape
  | ann_Tuple_QuantumTape_None
  | ann_Tuple_List_QuantumTape_None
  | ann_Tuple_List_QuantumTape_Callable
  | ann_other (repr : string).

#[global] Instance Annotation_eq_dec : EqDecision Annotation.
Proof. solve_decision. Defined.

Definition AUTO_EXECUTE_NO_PROCESSING : list Annotation :=
  [ann_QuantumTape; ann_List_QuantumTape; ann_Tuple_QuantumTape_None;
   ann_Tuple_List_QuantumTape_None].

Definition AUTO_EXECUTE_PROCESSING : list Annotation :=
  [inspect_empty; ann_Tuple_List_QuantumTape_Callable].

Definition AUTO_EXECUTE : list Annotation :=
  AUTO_EXECUTE_PROCESSING ++ AUTO_EXECUTE_NO_PROCESSING.

Definition Res : Type := Z.

(** Values a QNode transform and its processing function pass around. *)
#[warnings="-register-all"]
Inductive Value : Type :=
  | VNone
  | VNumber (r : Res)
  | VTape (t : nat)
  | VList (l : list Value)
  | VTuple (l : list Value)
  | VCallable (f : list Res -> outcome Value).

(** Modelled from the spec: the execution collaborator; a device runs a
    tape and gives a numeric result, or raises. *)
Record Device : Type := mkDevice {
  device_name : string;
  execute : nat -> outcome Res
}.

(** Modelled from the spec: the circuit entity protocol.  [construct]
    rebuilds the tape from the call arguments (and may raise, as the
    quantum function may); the tape it built is then the [qtape]
    attribute. *)
Record QNode : Type := mkQNode {
  construct : Args -> outcome nat;
  interface : string;
  device : Device
}.

(** What [isinstance(x, qml.QNode)] distinguishes. *)
Inductive Target : Type :=
  | NotQNode (repr : string)
  | IsQNode (q : QNode).

(** The first argument handed to the transform function. *)
Inductive TransformInput : Type :=
  | OnTape (qtape : nat)
  | OnQNode (qnode : QNode) (qtape : nat).

Record QNodeTransformFn : Type := mkQNodeTransformFn {
  is_single_tape_transform : bool;
  qt_parameters : nat;
  return_annotation : Annotation;
  qt_call : TransformInput -> Args -> outcome Value
}.

(** What a call of the decorated circuit did, in order. *)
Inductive Event : Type :=
  | Constructed (args : Args)
  | TransformCalled (input : TransformInput) (targs : Args)
  | Executed (tape : nat)
  | PostProcessed (res : list Res).

Record World : Type := mkWorld {
  qtape : option nat;
  events : list Event
}.

Definition log (e : Event) : M World unit :=
  modify (fun w => mkWorld (qtape w) (events w ++ [e])).

Definition qnode_construct (qnode : QNode) (args : Args) : M World unit :=
  log (Constructed args) ;;;
  t <- lift (construct qnode args) ;;
  modify (fun w => mkWorld (Some t) (events w)).

Definition qnode_qtape : M World nat :=
  fun w => match qtape w with
           | Some t => (Return t, w)
           | None => (Raise (AttributeError "qtape"), w)
           end.

Definition call_transform (fn : QNodeTransformFn) (input : TransformInput) (targs : Args)
  : M World Value :=
  log (TransformCalled input targs) ;;;
  lift (qt_call fn input targs).

(** Names bound in the module when a wrapper runs: its imports
    ([from typing import Tuple, List, Callable]) and its own top-level
    definitions; then the builtins the module uses. *)
Definition module_globals : list string :=
  ["functools"; "inspect"; "Tuple"; "List"; "Callable"; "qml";
   "AUTO_EXECUTE_NO_PROCESSING"; "AUTO_EXECUTE_PROCESSING"; "AUTO_EXECUTE";
   "make_tape"; "NonQueuingTape"; "single_tape_transform"; "qfunc_transform";
   "qnode_transform"].

Definition builtins : list string :=
  ["callable"; "isinstance"; "len"; "tuple"; "type"; "super"; "ValueError"].

Definition load_global (n : string) : outcome unit :=
  if bool_decide (n ∈ module_globals ++ builtins) then Return tt
  else Raise (NameError n).

(** [isinstance(tapes, tuple) and tapes[-1] is None] *)
Definition is_tuple_ending_in_None (v : Value) : outcome bool :=
  match v with
  | VTuple l => match last l with
                | Some VNone => Return true
                | Some _ => Return false
                | None => Raise (IndexError "tuple index out of range")
                end
  | _ => Return false
  end.

(** [tapes[0]] *)
Definition item0 (v : Value) : outcome Value :=
  match v with
  | VTuple (x :: _) | VList (x :: _) => Return x
  | VTuple [] | VList [] => Raise (IndexError "index out of range")
  | _ => Raise (TypeError "object is not subscriptable")
  end.

(** What [isinstance(x, Sequence)] would answer were the name bound. *)
Definition is_Sequence (v : Value) : bool :=
  match v with VList _ | VTuple _ => true | _ => false end.

(** [a, b = v] *)
Definition unpack2 (v : Value) : outcome (Value * Value) :=
  match v with
  | VTuple [a; b] | VList [a; b] => Return (a, b)
  | VTuple _ | VList _ => Raise (ValueError "wrong number of values to unpack")
  | _ => Raise (TypeError "cannot unpack non-iterable object")
  end.

Definition iterate (v : Value) : outcome (list Value) :=
  match v with
  | VTuple l | VList l => Return l
  | _ => Raise (TypeError "object is not iterable")
  end.

(** [t.execute(device=qnode.device)] *)
Definition execute_tape (dev : Device) (t : Value) : M World Res :=
  match t with
  | VTape t => log (Executed t) ;;; lift (execute dev t)
  | _ => raise (AttributeError "execute")
  end.

(** [[t.execute(device=qnode.device) for t in tapes]] *)
Fixpoint execute_each (dev : Device) (l : list Value) : M World (list Res) :=
  match l with
  | [] => ret []
  | t :: l' =>
      r <- execute_tape dev t ;;
      rs <- execute_each dev l' ;;
      ret (r :: rs)
  end.

Definition execute_all (dev : Device) (tapes : Value) : M World (list Res) :=
  l <- lift (iterate tapes) ;;
  execute_each dev l.

(** [fn(res)] *)
Definition call_processing (fn : Value) (res : list Res) : M World Value :=
  match fn with
  | VCallable f => log (PostProcessed res) ;;; lift (f res)
  | _ => raise (TypeError "object is not callable")
  end.

Definition results (res : list Res) : Value := VList (VNumber <$> res).

Definition QNodeWrapper : Type := Args -> M World Value.

(** [internal_wrapper] of the branch [len(params) > 1]. *)
Definition qnode_internal_wrapper_multi
    (auto_execute post_process : bool)
    (qnode_transform_fn : QNodeTransformFn) (targs : Args) (qnode : QNode)
  : QNodeWrapper :=
  fun args =>
    qnode_construct qnode args ;;;
    if auto_execute && negb post_process then
      qt <- qnode_qtape ;;
      tapes <- call_transform qnode_transform_fn (OnTape qt) targs ;;
      b <- lift (is_tuple_ending_in_None tapes) ;;
      tapes <- (if b : bool then lift (item0 tapes) else ret tapes) ;;
      lift (load_global "Sequence") ;;;
      let tapes := if is_Sequence tapes then tapes else VList [tapes] in
      res <- execute_all (device qnode) tapes ;;
      ret (results res)
    else if auto_execute then
      qt <- qnode_qtape ;;
      r <- call_transform qnode_transform_fn (OnQNode qnode qt) targs ;;
      p <- lift (unpack2 r) ;;
      res <- execute_all (device qnode) p.1 ;;
      call_processing p.2 res
    else ret VNone.

(** [internal_wrapper] of the branch [len(params) == 1]. *)
Definition qnode_internal_wrapper_single
    (qnode_transform_fn : QNodeTransformFn) (qnode : QNode)
  : QNodeWrapper :=
  fun args =>
    qnode_construct qnode args ;;;
    qt <- qnode_qtape ;;
    p <- (if is_single_tape_transform qnode_transform_fn then
            t <- call_transform qnode_transform_fn (OnTape qt) [] ;;
            ret (VList [t], VCallable (fun x => Return (results x)))
          else
            r <- call_transform qnode_transform_fn (OnQNode qnode qt) [] ;;
            lift (unpack2 r)) ;;
    res <- execute_all (device qnode) p.1 ;;
    call_processing p.2 res.

(** The decorated circuit: the wrapper and the attributes set on it. *)
Record Wrapped : Type := mkWrapped {
  internal_wrapper : QNodeWrapper;
  wrapped_qnode : QNode;
  wrapped_interface : string;
  wrapped_device : Device
}.

Definition qnode_wrapper (w : QNode -> QNodeWrapper) (qnode : Target) : outcome Wrapped :=
  match qnode with
  | NotQNode _ =>
      Raise (ValueError "The object to transform does not appear to be a valid QNode.")
  | IsQNode q => Return (mkWrapped (w q) q (interface q) (device q))
  end.

Inductive QNodeTransform : Type :=
  | QNodeFactory (make_qnode_transform : Args -> Target -> outcome Wrapped)
  | QNodeDecorator (make_qnode_transform : Target -> outcome Wrapped).

(** The classification made when the transform is registered. *)
Definition auto_execute_of (fn : QNodeTransformFn) : bool :=
  if is_single_tape_transform fn then true
  else bool_decide (return_annotation fn ∈ AUTO_EXECUTE).

Definition post_process_of (fn : QNodeTransformFn) : bool :=
  if is_single_tape_transform fn then false
  else auto_execute_of fn
       && bool_decide (return_annotation fn ∈ AUTO_EXECUTE_PROCESSING).

Definition qnode_transform (qnode_transform_fn : PyObj QNodeTransformFn)
  : outcome QNodeTransform :=
  match qnode_transform_fn with
  | NotCallable _ =>
      Raise (ValueError "The qnode_transform decorator can only be applied to valid Python functions or callables.")
  | Callable fn =>
      let params := qt_parameters fn in
      let auto_execute := auto_execute_of fn in
      let post_process := post_process_of fn in
      if decide (1 < params) then
        Return (QNodeFactory (fun targs =>
                  qnode_wrapper (qnode_internal_wrapper_multi
                                   auto_execute post_process fn targs)))
      else if decide (params = 1) then
        Return (QNodeDecorator (qnode_wrapper (qnode_internal_wrapper_single fn)))
      else Raise (UnboundLocalError "make_qnode_transform")
  end.

(** ** The classical Jacobian *)

(** The callable [_make_jacobian_fn] hands back: which backend primitive
    it wraps, around which function. *)
Inductive JacobianFn (F : Type) : Type :=
  | qml_jacobian (fn : F)
  | torch_jacobian (fn : F)
  | jax_jacobian (fn : F)
  | tf_jacobian (fn : F).
Arguments qml_jacobian {F} fn.
Arguments torch_jacobian {F} fn.
Arguments jax_jacobian {F} fn.
Arguments tf_jacobian {F} fn.

(** A function that runs off its end returns [None]. *)
Definition _make_jacobian_fn {F} (fn : F) (interface : string) : option (JacobianFn F) :=
  if decide (interface = "autograd") then Some (qml_jacobian fn)
  else if decide (interface = "torch") then Some (torch_jacobian fn)
  else if decide (interface = "jax") then Some (jax_jacobian fn)
  else if decide (interface = "tf") then Some (tf_jacobian fn)
  else None.

(** [callable(x)] on what the factory returns. *)
Definition callable {F} (x : option (JacobianFn F)) : bool :=
  match x with Some _ => true | None => false end.

(** Modelled from the spec: the tape protocol that the Jacobian extractor
    consumes.  [set_parameters] mutates the tape in place: it gives the
    tape's next state together with its outcome, which may be an
    exception.  [expand] builds a new tape or raises. *)
Class TapeProtocol (T V : Type) : Type := {
  set_parameters : T -> list V -> outcome unit * T;
  get_parameters : T -> list V;
  expand : T -> nat -> option (OpData -> bool) -> outcome T;
  tape_interface : T -> string
}.

(** Modelled from the spec: a [set_parameters] that returns, followed by
    [get_parameters], round-trips the values. *)
Definition round_trip {T V} `{TapeProtocol T V} : Prop :=
  forall (t : T) (p : list V),
    (set_parameters t p).1 = Return tt ->
    get_parameters (set_parameters t p).2 = p.

(** The attributes of an [expansion_jacobian] object; [depth] and
    [stop_at] are the values its closure captured. *)
Record expansion_jacobian (T : Type) : Type := mk_expansion_jacobian {
  tape : T;
  _expanded_tape : option T;
  depth : nat;
  stop_at : option (OpData -> bool)
}.
Arguments mk_expansion_jacobian {T}.
Arguments tape {T}.
Arguments _expanded_tape {T}.
Arguments depth {T}.
Arguments stop_at {T}.

Definition expansion_jacobian__init__ {T} (tape : T) (depth : nat)
    (stop_at : option (OpData -> bool)) : expansion_jacobian T :=
  mk_expansion_jacobian tape None depth stop_at.

(** [qml.math.stack] of a flat parameter list. *)
Definition stack {V} (l : list V) : list V := l.

(** [self.tape.set_parameters(params)] on the extractor's state. *)
Definition tape_set_parameters {T V} `{TapeProtocol T V} (params : list V)
  : M (expansion_jacobian T) unit :=
  fun self =>
    let r := set_parameters (tape self) params in
    (r.1, mk_expansion_jacobian r.2 (_expanded_tape self) (depth self) (stop_at self)).

Definition classical_preprocessing {T V} `{TapeProtocol T V} (params : list V)
  : M (expansion_jacobian T) (list V) :=
  tape_set_parameters params ;;;
  self <- gets (fun self => self) ;;
  e <- lift (expand (tape self) (depth self) (stop_at self)) ;;
  modify (fun self => mk_expansion_jacobian (tape self) (Some e)
                        (depth self) (stop_at self)) ;;;
  e <- gets _expanded_tape ;;
  match e with
  | Some e => ret (stack (get_parameters e))
  | None => raise (AttributeError "get_parameters")
  end.

Definition expanded_tape {T} (self : expansion_jacobian T) : option T :=
  _expanded_tape self.

(** [self.jac_fn], built in [__init__] from the interface of the tape
    given there. *)
Definition jac_fn {T V} `{TapeProtocol T V} (tape0 : T)
  : option (JacobianFn (list V -> M (expansion_jacobian T) (list V))) :=
  _make_jacobian_fn classical_preprocessing (tape_interface tape0).

(** Successive calls of the preprocessing function, the state threaded
    through; the result is that of the last call. *)
Fixpoint call_each {T V} `{TapeProtocol T V} (calls : list (list V))
    (self : expansion_jacobian T) : expansion_jacobian T :=
  match calls with
  | [] => self
  | p :: calls' => call_each calls' (classical_preprocessing p self).2
  end.

(** The backend identifiers the factory knows. *)
Definition supported_interfaces : list string := ["autograd"; "torch"; "jax"; "tf"].

(** ** What a body queues *)

(** The objects a list of commands hands to [QueuingContext.append], in
    order, when the next free identity is [n]. *)
Fixpoint queued_by (n : nat) (cs : list Cmd) : list Obj :=
  match cs with
  | [] => []
  | Instantiate d :: cs' => Operation n d :: queued_by (S n) cs'
  | Requeue o :: cs' => o :: queued_by n cs'
  end.

(** The operations among them that were created by the commands. *)
Fixpoint instantiated_by (n : nat) (cs : list Cmd) : list Obj :=
  match cs with
  | [] => []
  | Instantiate d :: cs' => Operation n d :: instantiated_by (S n) cs'
  | Requeue _ :: cs' => instantiated_by n cs'
  end.

(** The objects the commands queue again rather than create. *)
Fixpoint requeued (cs : list Cmd) : list Obj :=
  match cs with
  | [] => []
  | Instantiate _ :: cs' => requeued cs'
  | Requeue o :: cs' => o :: requeued cs'
  end.

Definition instantiations (cs : list Cmd) : nat := length (instantiated_by 0 cs).

(** Queue entries appended one after the other. *)
Definition enqueue (q : Queue) (l : Queue) : Queue :=
  foldl (fun q x => _append x.1 x.2 q) q l.

Definition bare (os : list Obj) : Queue := (fun o => (o, [] : Info)) <$> os.

(** A context is well formed when every identity in use was allocated:
    tapes, queued objects and stack entries are below [next_id], and the
    stack holds live tapes. *)
Record wf (σ : Context) : Prop := mk_wf {
  wf_heap : forall t T, heap σ !! t = Some T -> t < next_id σ;
  wf_queue : forall t T o, heap σ !! t = Some T ->
                           o ∈ objects (_queue T) -> obj_id o < next_id σ;
  wf_stack : forall t, t ∈ _active_contexts σ -> is_Some (heap σ !! t)
}.

(** How a body ends. *)
Definition body_outcome (b : Body) : outcome unit :=
  match raises b with
  | Some e => Raise e
  | None => Return tt
  end.

(** The operations that instantiating [ds] one after the other creates
    when the next free identity is [n]. *)
Fixpoint created (n : nat) (ds : list OpData) : list Obj :=
  match ds with
  | [] => []
  | d :: ds' => Operation n d :: created (S n) ds'
  end.

(** The class [make_tape] gives the new tape: that of the active tape,
    or [QuantumTape] when there is none. *)
Definition make_tape_class (σ : Context) : TapeClass :=
  match active_context σ with
  | Some a => match heap σ !! a with
              | Some A => tape_class A
              | None => QuantumTape
              end
  | None => QuantumTape
  end.

(** The queue that a transform body [b] leaves in the output tape, when
    that tape was allocated with identity [n]. *)
Definition output_queue (n : nat) (b : Body) : Queue :=
  enqueue [] (bare (queued_by (S n) (cmds b))).

(** What becomes of the queue [q] of the scope recording around a
    non-queuing tape [n]: the tape registers itself on entry; on exit
    its queue [Q] is forwarded and the tape is removed again. *)
Definition forwarded (n : nat) (Q : Queue) (q : Queue) : Queue :=
  _remove (TapeRef n) (enqueue (_append (TapeRef n) [] q) Q).

(** ** Statements about whole calls *)

(** The behaviour claimed for a transform left out of auto-execution: a
    call of the decorated circuit constructs the tape and returns
    [None], and the construction is all that happened. *)
Definition constructs_then_returns_None (fn : QNodeTransformFn) : Prop :=
  forall (targs : Args) (qnode : QNode) (args : Args) (w : World) (t : nat),
    construct qnode args = Return t ->
    exists mk wr,
      qnode_transform (Callable fn) = Return (QNodeFactory mk) /\
      mk targs (IsQNode qnode) = Return wr /\
      internal_wrapper wr args w
      = (Return VNone, mkWorld (Some t) (events w ++ [Constructed args])).

(** C1 as written: no operation instantiated in the body of the
    transform is, after the call, in a tape that was on the context
    stack before the call. *)
Definition never_in_enclosing_scope
    (self : single_tape_transform) (tape : nat) (args : Args) (σ : Context) : Prop :=
  forall (T : Tape) (o : Obj) (t : nat) (R : Tape),
    heap σ !! tape = Some T ->
    o ∈ instantiated_by (S (next_id σ)) (cmds (tf_body (transform_fn self) T args)) ->
    t ∈ _active_contexts σ ->
    heap (single_tape_transform__call__ self tape args σ).2 !! t = Some R ->
    o ∉ objects (_queue R).


(** ** Concrete inputs *)

(** A tape as a bare parameter list: expansion repeats every parameter
    [depth] more times. *)
#[global] Instance list_tape : TapeProtocol (list Z) Z := {|
  set_parameters := fun _ p => (Return tt, p);
  get_parameters := fun t => t;
  expand := fun t d _ => Return (t ≫= (fun x => replicate (S d) x));
  tape_interface := fun _ => "autograd"
|}.

(** A device that answers every tape with its identity. *)
Definition echo_device : Device := mkDevice "echo" (fun t => Return (Z.of_nat t)).

(** A circuit whose construction always yields tape 7. *)
Definition circuit7 : QNode := mkQNode (fun _ => Return 7) "autograd" echo_device.

Definition sum_results : Value :=
  VCallable (fun res => Return (VNumber (foldr Z.add 0%Z res))).

(** [def t(qnode) -> ann: return [qnode.qtape], processing_fn], for a
    chosen annotation [ann]. *)
Definition one_parameter_transform (ann : Annotation) : QNodeTransformFn :=
  mkQNodeTransformFn false 1 ann
    (fun input _ =>
       match input with
       | OnTape t | OnQNode _ t => Return (VTuple [VList [VTape t]; sum_results])
       end).

(** [def t(qnode) -> QuantumTape: return qnode.qtape] *)
Definition one_parameter_tape_transform : QNodeTransformFn :=
  mkQNodeTransformFn false 1 ann_QuantumTape
    (fun input _ =>
       match input with
       | OnTape t | OnQNode _ t => Return (VTape t)
       end).

(** [def t(tape, x) -> QuantumTape: return tape] *)
Definition two_parameter_tape_transform : QNodeTransformFn :=
  mkQNodeTransformFn false 2 ann_QuantumTape
    (fun input _ =>
       match input with
       | OnTape t | OnQNode _ t => Return (VTape t)
       end).

(** A registered single-tape transform [def t(tape, x) -> None], whose
    call gives back a new tape. *)
Definition annotated_single_tape_transform : QNodeTransformFn :=
  mkQNodeTransformFn true 2 (ann_other "None")
    (fun input _ =>
       match input with
       | OnTape t | OnQNode _ t => Return (VTape (S t))
       end).

(** [def t(qnode, x) -> int: ...], a plain function annotated outside the
    auto-execute set. *)
Definition manual_transform : QNodeTransformFn :=
  mkQNodeTransformFn false 2 (ann_other "int")
    (fun _ _ => Return (VNumber 0%Z)).

Definition empty_world : World := mkWorld None [].

(** An expansion-mode extractor over [list_tape], depth 1, no stop
    predicate. *)
Definition extractor0 : expansion_jacobian (list Z) :=
  expansion_jacobian__init__ [1%Z; 2%Z] 1 None.

(** The example of the [make_tape] docstring: a tape recording [RY],
    inside which [make_tape(qfunc)(x)] is called. *)
Definition RY (x : Z) : OpData := mkOp "RY" [x] [0] false.
Definition RX (x : Z) (w : nat) : OpData := mkOp "RX" [x] [w] false.
Definition Hadamard : OpData := mkOp "Hadamard" [] [0] false.
Definition CNOT : OpData := mkOp "CNOT" [] [0; 1] false.
Definition CRX (x : Z) : OpData := mkOp "CRX" [x] [0; 1] false.
Definition CZ : OpData := mkOp "CZ" [] [1; 0] false.
Definition expval_PauliZ : OpData := mkOp "expval(PauliZ)" [] [0] true.

Definition active_RY : Context :=
  mkContext {[ 0 := mkTape QuantumTape [(Operation 1 (RY 1), [])] true ]} [0] 2.

Definition qfunc : QFunc :=
  fun args => mkQBody [Hadamard; CNOT; RX (default 0%Z (head args)) 0] None.

(** The transform of the [single_tape_transform] docstring: every [CRX]
    is replaced by [RX], [RY] and [CZ]; everything else is queued
    again. *)
Definition my_transform_body (T : Tape) (args : Args) : Body :=
  let x := nth 0 args 0%Z in
  let y := nth 1 args 0%Z in
  mkBody
    (flat_map
       (fun op =>
          match op with
          | Operation _ d =>
              if String.eqb (name d) "CRX" then
                let param := nth 0 (parameters d) 0%Z in
                let w1 := nth 1 (wires d) 0 in
                let w0 := nth 0 (wires d) 0 in
                [Instantiate (mkOp "RX" [(x * Z.abs param)%Z] [w1] false);
                 Instantiate (mkOp "RY" [(y * Z.abs param)%Z] [w1] false);
                 Instantiate (mkOp "CZ" [] [w1; w0] false)]
              else [Requeue op]
          | TapeRef _ => [Requeue op]
          end)
       (operations T ++ measurements T))
    None.

Definition my_transform : single_tape_transform :=
  mk_single_tape_transform (mkTransformFunction 3 my_transform_body).

Definition input_tape : Tape :=
  mkTape JacobianTape
    [(Operation 3 Hadamard, []); (Operation 4 (CRX (-5)), [])] true.

(** A tape that records [RY], with a finished input tape on the side. *)
Definition recording_with_input : Context :=
  mkContext
    (<[2 := input_tape]> {[ 0 := mkTape QuantumTape [(Operation 1 (RY 1), [])] true ]})
    [0] 5.

(** The quantum function of the [qfunc_transform] docstring, with a
    measurement at its end. *)
Definition ansatz : QFunc :=
  fun args => mkQBody [Hadamard; CRX (default 0%Z (head args)); expval_PauliZ] None.


(** [def t(tape): ...], a transform of the tape alone, queuing every
    object of the tape again. *)
Definition requeue_all : single_tape_transform :=
  mk_single_tape_transform
    (mkTransformFunction 1
       (fun T _ => mkBody (Requeue <$> (operations T ++ measurements T)) None)).

(** ** Further code of the two files *)

(** [expansion_jacobian.__call__]: [self.jac_fn] applied to the call's
    arguments.  [jac_fn] was built in [__init__] from the tape [tape0] given there;
    what a backend's Jacobian primitive then computes is the backend's
    business and is taken as [backend]. *)
Definition expansion_jacobian__call__ {T V R} `{TapeProtocol T V}
    (backend : JacobianFn (list V -> M (expansion_jacobian T) (list V)) ->
               list V -> M (expansion_jacobian T) R)
    (tape0 : T) (args : list V) : M (expansion_jacobian T) R :=
  match jac_fn tape0 with
  | Some j => backend j args
  | None => raise (TypeError "'NoneType' object is not callable")
  end.

(** [classical_preprocessing] inside [classical_jacobian]: the circuit
    is constructed again from the call's arguments, and the parameters
    of its tape are returned.  [get_parameters_of] reads the parameters
    of a tape. *)
Definition direct_preprocessing {V} (get_parameters_of : nat -> list V)
    (qnode : QNode) (args : Args) : M World (list V) :=
  qnode_construct qnode args ;;;
  t <- qnode_qtape ;;
  ret (stack (get_parameters_of t)).

Definition classical_jacobian {V} (get_parameters_of : nat -> list V) (qnode : QNode)
  : option (JacobianFn (Args -> M World (list V))) :=
  _make_jacobian_fn (direct_preprocessing get_parameters_of qnode) (interface qnode).

(** Successive calls of the direct preprocessing function. *)
Fixpoint preprocess_each {V} (get_parameters_of : nat -> list V) (qnode : QNode)
    (calls : list Args) (w : World) : World :=
  match calls with
  | [] => w
  | args :: calls' =>
      preprocess_each get_parameters_of qnode calls'
        (direct_preprocessing get_parameters_of qnode args w).2
  end.

(** The events of running the tapes [ts] one after the other. *)
Definition executions (ts : list nat) : list Event := Executed <$> ts.

(** A device that fails on tape 4 and answers every other tape with its
    identity. *)
Definition flaky_device : Device :=
  mkDevice "flaky"
    (fun t => if decide (t = 4) then Raise (UserError "device error")
              else Return (Z.of_nat t)).

Definition flaky_circuit : QNode := mkQNode (fun _ => Return 7) "autograd" flaky_device.

(** A circuit whose quantum function raises. *)
Definition broken_circuit : QNode :=
  mkQNode (fun _ => Raise (UserError "bad arguments")) "torch" echo_device.

(** [def t(): ...], registered as a transform although it takes no
    tape. *)
Definition no_parameter_transform : QNodeTransformFn :=
  mkQNodeTransformFn false 0 inspect_empty (fun _ _ => Return VNone).

(** A tape protocol like [list_tape], but declaring an interface for
    which there is no adapter. *)
Definition numpy_tape : TapeProtocol (list Z) Z := {|
  set_parameters := fun _ p => (Return tt, p);
  get_parameters := fun t => t;
  expand := fun t d _ => Return (t ≫= (fun x => replicate (S d) x));
  tape_interface := fun _ => "numpy"
|}.

(** A circuit that builds tape [10 + x] when called with first argument
    [x], and raises when called without arguments. *)
Definition counting_circuit : QNode :=
  mkQNode (fun args => match args with
                       | x :: _ => Return (10 + Z.to_nat x)
                       | [] => Raise (TypeError "missing argument")
                       end)
    "jax" echo_device.

(** A quantum function that queues [Hadamard] and then raises. *)
Definition raising_qfunc : QFunc :=
  fun _ => mkQBody [Hadamard] (Some (UserError "boom")).

(** ** The expansion-mode caching claim, read literally *)

(** Every call of the preprocessing function of an extractor built by
    [expansion_jacobian(tape0, depth, stop_at)], after any earlier
    calls, leaves the call's values in the tape, caches the expansion of
    that tape and returns the expanded tape's parameters. *)
Definition cache_reflects_every_call {T V} `{TapeProtocol T V}
    (tape0 : T) (depth : nat) (stop_at : option (OpData -> bool)) : Prop :=
  forall (calls : list (list V)) (p : list V),
    let run := classical_preprocessing p
                 (call_each calls (expansion_jacobian__init__ tape0 depth stop_at)) in
    get_parameters (tape run.2) = p /\
    exists e, expand (tape run.2) depth stop_at = Return e /\
              expanded_tape run.2 = Some e /\
              run.1 = Return (get_parameters e).

(** A tape whose decomposition is undefined at the parameter value 0:
    [expand] raises there, as spec section 7 allows tape expansion to;
    elsewhere it behaves as [list_tape]. *)
Definition fragile_tape : TapeProtocol (list Z) Z := {|
  set_parameters := fun _ p => (Return tt, p);
  get_parameters := fun t => t;
  expand := fun t d _ =>
    if decide (0%Z ∈ t) then Raise (ValueError "cannot decompose at 0")
    else Return (t ≫= (fun x => replicate (S d) x));
  tape_interface := fun _ => "autograd"
|}.

(** ** What the transform body sees and what a tape records *)

(** The input tape as the transform body finds it.  When the input tape
    is itself the scope recording at the call, the output tape has
    registered with it on entry, before the body runs. *)
Definition seen_by_body (σ : Context) (tape : nat) (T : Tape) : Tape :=
  if decide (recording_scope σ = Some tape)
  then with_queue (_append (TapeRef (next_id σ)) []) T
  else T.

(** A queue is keyed by object identity: a tape records an object when
    the object's identity is among its keys. *)
Definition records (T : Tape) (o : Obj) : Prop :=
  obj_id o ∈ obj_id <$> objects (_queue T).

(** The class [single_tape_transform.__call__] builds for its output
    tape, when it can. *)
Definition fused (c : TapeClass) : TapeClass := mkClass (class_name c) true.

(** * Properties *)

(** ** The backend adapter factory *)

(** C6: the factory returns a callable adapter for each of "autograd",
    "torch", "jax" and "tf", different adapters for different backends,
    and [None], without raising, for every other identifier. *)
Theorem make_jacobian_fn_selects_backend {F : Type} (fn : F) :
  _make_jacobian_fn fn "autograd" = Some (qml_jacobian fn) /\
  _make_jacobian_fn fn "torch" = Some (torch_jacobian fn) /\
  _make_jacobian_fn fn "jax" = Some (jax_jacobian fn) /\
  _make_jacobian_fn fn "tf" = Some (tf_jacobian fn) /\
  (forall i, i ∈ supported_interfaces -> callable (_make_jacobian_fn fn i) = true) /\
  (forall i j, i ∈ supported_interfaces -> j ∈ supported_interfaces -> i <> j ->
     _make_jacobian_fn fn i <> _make_jacobian_fn fn j) /\
  (forall i, i ∉ supported_interfaces ->
     _make_jacobian_fn fn i = None /\ callable (_make_jacobian_fn fn i) = false).
Proof.
  repeat split; try reflexivity.
  - intros i Hi. unfold supported_interfaces in Hi.
    repeat (apply elem_of_cons in Hi as [-> | Hi]; [reflexivity |]).
    by apply elem_of_nil in Hi.
  - intros i j Hi Hj Hne. unfold supported_interfaces in Hi, Hj.
    repeat (apply elem_of_cons in Hi as [-> | Hi]);
      try (by apply elem_of_nil in Hi);
      repeat (apply elem_of_cons in Hj as [-> | Hj]);
      try (by apply elem_of_nil in Hj);
      try congruence; vm_compute; discriminate.
  - unfold _make_jacobian_fn, supported_interfaces in *.
    repeat case_decide; subst; try reflexivity; exfalso; apply H; set_solver.
  - unfold _make_jacobian_fn, supported_interfaces in *.
    repeat case_decide; subst; try reflexivity; exfalso; apply H; set_solver.
Qed.

Lemma make_jacobian_fn_selects_backend_witness :
  ("numpy" ∉ supported_interfaces) /\
  _make_jacobian_fn tt "numpy" = None /\
  _make_jacobian_fn tt "jax" <> _make_jacobian_fn tt "tf".
Proof.
  assert (Hn : "numpy" ∉ supported_interfaces).
  { unfold supported_interfaces. intros H.
    repeat (apply elem_of_cons in H as [H | H]; [discriminate H |]).
    by apply elem_of_nil in H. }
  destruct (make_jacobian_fn_selects_backend tt) as (_ & _ & _ & _ & _ & Hd & Ho).
  split; [exact Hn |]. split; [exact (proj1 (Ho _ Hn)) |].
  apply Hd; [repeat constructor | repeat constructor | discriminate].
Defined.

(** ** The circuit transform registrar *)

Lemma Sequence_is_unbound : load_global "Sequence" = Raise (NameError "Sequence").
Proof. reflexivity. Qed.

Lemma Executed_not_new (evs : list Event) (new : list Event) (t : nat) :
  Forall (fun e => forall t', e <> Executed t') new ->
  Executed t ∈ evs ++ new -> Executed t ∈ evs.
Proof.
  intros Hnew [H | H]%elem_of_app; [exact H |].
  rewrite Forall_forall in Hnew. destruct (Hnew _ H t eq_refl).
Qed.

(** C5: in the branch for transforms with extra arguments, classified
    auto-execute without post-processing, no call of the decorated
    circuit returns: whatever the transform gives back, the name
    [Sequence] is looked up before any tape is executed, and it is bound
    nowhere in the module.  The call [t(tape, x) -> QuantumTape] on the
    circuit [circuit7] ends in [NameError] after the transform has run. *)
Theorem auto_execute_without_processing_raises
    (fn : QNodeTransformFn) (targs : Args) (qnode : QNode) (args : Args) (w : World) :
  (exists e w',
      qnode_internal_wrapper_multi true false fn targs qnode args w = (Raise e, w') /\
      (forall t, Executed t ∈ events w' -> Executed t ∈ events w)) /\
  qnode_internal_wrapper_multi true false two_parameter_tape_transform [1%Z]
    circuit7 [] empty_world
  = (Raise (NameError "Sequence"),
     mkWorld (Some 7) [Constructed []; TransformCalled (OnTape 7) [1%Z]]).
Proof.
  split; [| reflexivity].
  unfold qnode_internal_wrapper_multi, qnode_construct, qnode_qtape,
    call_transform, log, bind, modify, lift, ret. simpl.
  destruct (construct qnode args) as [t0 | e0]; simpl.
  2: { eexists _, _. split; [reflexivity |]. simpl. intros t.
       apply Executed_not_new. repeat constructor; discriminate. }
  destruct (qt_call fn (OnTape t0) targs) as [v | e1]; simpl.
  2: { eexists _, _. split; [reflexivity |]. simpl. intros t.
       rewrite <- app_assoc. apply Executed_not_new.
       repeat constructor; discriminate. }
  assert (Hev : forall t, Executed t ∈ (events w ++ [Constructed args]) ++
                    [TransformCalled (OnTape t0) targs] -> Executed t ∈ events w).
  { intros t. rewrite <- app_assoc. apply Executed_not_new.
    repeat constructor; discriminate. }
  destruct (is_tuple_ending_in_None v) as [[|] | e2]; simpl.
  - destruct (item0 v) as [v0 | e3]; simpl;
      eexists _, _; (split; [reflexivity | exact Hev]).
  - eexists _, _; (split; [reflexivity | exact Hev]).
  - eexists _, _; (split; [reflexivity | exact Hev]).
Qed.

(** C10, as amended: for a transform with extra arguments that is not a
    registered single-tape transform and whose return annotation is
    outside the auto-execute set, every call of the decorated circuit
    constructs the circuit's tape and returns [None]; the transform is
    not called, no tape is executed, nothing is raised. *)
Theorem manual_transform_returns_None (fn : QNodeTransformFn) :
  is_single_tape_transform fn = false ->
  1 < qt_parameters fn ->
  return_annotation fn ∉ AUTO_EXECUTE ->
  constructs_then_returns_None fn.
Proof.
  intros Hst Hn Hann targs qnode args w t Hc.
  unfold qnode_transform. rewrite decide_True by exact Hn.
  eexists _, _. split; [reflexivity |]. split; [reflexivity |].
  simpl. unfold auto_execute_of, post_process_of. rewrite Hst.
  rewrite bool_decide_eq_false_2 by exact Hann. simpl.
  unfold qnode_internal_wrapper_multi, qnode_construct, log, bind, modify, lift, ret.
  simpl. rewrite Hc. reflexivity.
Qed.

Lemma manual_transform_returns_None_witness :
  exists mk wr,
    qnode_transform (Callable manual_transform) = Return (QNodeFactory mk) /\
    mk [1%Z] (IsQNode circuit7) = Return wr /\
    internal_wrapper wr [] empty_world
    = (Return VNone, mkWorld (Some 7) [Constructed []]).
Proof.
  apply (manual_transform_returns_None manual_transform eq_refl).
  - simpl. lia.
  - apply (proj1 (bool_decide_eq_false _)). reflexivity.
  - reflexivity.
Defined.

(** C10 as written fails for a registered single-tape transform
    annotated [-> None]: the registrar classifies it auto-execute
    whatever its annotation, so the decorated circuit calls it. *)
Lemma annotation_outside_auto_execute_counterexample :
  1 < qt_parameters annotated_single_tape_transform /\
  (return_annotation annotated_single_tape_transform ∉ AUTO_EXECUTE) /\
  ~ constructs_then_returns_None annotated_single_tape_transform.
Proof.
  split; [simpl; lia |]. split.
  { apply (proj1 (bool_decide_eq_false _)). reflexivity. }
  intros H.
  destruct (H [1%Z] circuit7 [] empty_world 7 eq_refl) as (mk & wr & Hr & Hw & Hrun).
  vm_compute in Hr. injection Hr as <-.
  vm_compute in Hw. injection Hw as <-.
  vm_compute in Hrun. discriminate Hrun.
Qed.

(** C2: the registrar does classify once, from the annotation; but the
    wrapper built for a transform of exactly one parameter never reads
    the classification.  A transform annotated [-> QuantumTape] that
    returns a tape is classified auto-execute without post-processing,
    yet the decorated circuit tries to unpack its result into tapes and
    a processing function and raises, executing nothing.  And one
    function body under three annotations is classified three ways
    while the decorated circuit behaves the same way each time: the
    tape is executed and the processing function is applied. *)
Theorem single_parameter_wrapper_ignores_classification :
  (auto_execute_of one_parameter_tape_transform = true /\
   post_process_of one_parameter_tape_transform = false /\
   exists mk wr,
     qnode_transform (Callable one_parameter_tape_transform)
     = Return (QNodeDecorator mk) /\
     mk (IsQNode circuit7) = Return wr /\
     internal_wrapper wr [] empty_world
     = (Raise (TypeError "cannot unpack non-iterable object"),
        mkWorld (Some 7) [Constructed []; TransformCalled (OnQNode circuit7 7) []])) /\
  (auto_execute_of (one_parameter_transform ann_QuantumTape) = true /\
   post_process_of (one_parameter_transform ann_QuantumTape) = false) /\
  (auto_execute_of (one_parameter_transform inspect_empty) = true /\
   post_process_of (one_parameter_transform inspect_empty) = true) /\
  auto_execute_of (one_parameter_transform (ann_other "int")) = false /\
  (forall st n a a' call q,
      qnode_internal_wrapper_single (mkQNodeTransformFn st n a call) q
      = qnode_internal_wrapper_single (mkQNodeTransformFn st n a' call) q) /\
  (forall ann, exists mk wr,
      qnode_transform (Callable (one_parameter_transform ann))
      = Return (QNodeDecorator mk) /\
      mk (IsQNode circuit7) = Return wr /\
      internal_wrapper wr [] empty_world
      = (Return (VNumber 7%Z),
         mkWorld (Some 7)
           [Constructed []; TransformCalled (OnQNode circuit7 7) [];
            Executed 7; PostProcessed [7%Z]])).
Proof.
  split.
  { split; [reflexivity |]. split; [reflexivity |].
    eexists _, _. repeat split. }
  repeat split.
  intros ann. eexists _, _. repeat split.
Qed.

(** ** Configuration errors *)

(** C9: the three configuration errors are [ValueError]s raised by the
    registration or decoration step itself.  Decoration is a pure step:
    it returns a wrapper or raises, and leaves the queuing context and
    the circuit's event log as they were, so no tape has been built and
    no wrapper exists that could fail later. *)
Theorem configuration_errors_raised_at_registration :
  (forall repr, exists m,
      single_tape_transform__init__ (NotCallable repr) = Raise (ValueError m)) /\
  (forall repr, exists m,
      qfunc_transform (Unregistered (NotCallable repr)) = Raise (ValueError m)) /\
  (forall (tt : TapeTransformArg) (repr : string) (σ : Context),
      match qfunc_transform tt with
      | Return (QfuncFactory mk _) =>
          forall targs, exists m,
            lift (mk targs (NotCallable repr)) σ = (Raise (ValueError m), σ)
      | Return (QfuncDecorator mk _) =>
          exists m, lift (mk (NotCallable repr)) σ = (Raise (ValueError m), σ)
      | Raise _ => True
      end) /\
  (forall (fn : PyObj QNodeTransformFn) (repr : string) (w : World),
      match qnode_transform fn with
      | Return (QNodeFactory mk) =>
          forall targs, exists m,
            lift (mk targs (NotQNode repr)) w = (Raise (ValueError m), w)
      | Return (QNodeDecorator mk) =>
          exists m, lift (mk (NotQNode repr)) w = (Raise (ValueError m), w)
      | Raise _ => True
      end) /\
  (forall (t : single_tape_transform),
      1 <= tf_parameters (transform_fn t) ->
      exists r, qfunc_transform (Registered t) = Return r) /\
  (forall (fn : QNodeTransformFn),
      1 <= qt_parameters fn ->
      exists r, qnode_transform (Callable fn) = Return r).
Proof.
  split; [intros; eexists; reflexivity |].
  split; [intros; eexists; reflexivity |].
  split; [| split; [| split]].
  - intros tt repr σ. unfold qfunc_transform. simpl.
    destruct tt as [t | [r | f]]; simpl; try exact I;
      repeat case_decide; simpl; try exact I; intros; eexists; reflexivity.
  - intros [r | fn] repr w; simpl; [exact I |].
    repeat case_decide; simpl; try exact I; intros; eexists; reflexivity.
  - intros t Hn. unfold qfunc_transform. simpl.
    repeat case_decide; try lia; eexists; reflexivity.
  - intros fn Hn. unfold qnode_transform.
    repeat case_decide; try lia; eexists; reflexivity.
Qed.

Lemma configuration_errors_raised_at_registration_witness :
  exists r, qnode_transform (Callable manual_transform) = Return r.
Proof.
  destruct configuration_errors_raised_at_registration as (_ & _ & _ & _ & _ & H).
  apply (H manual_transform). simpl. lia.
Defined.

(** ** The expansion-mode preprocessing function *)

Section ExpansionJacobian.
Context {T V : Type} `{TapeProtocol T V}.

Lemma classical_preprocessing_run (p : list V) (self : expansion_jacobian T) :
  classical_preprocessing p self
  = let set := set_parameters (tape self) p in
    match set.1 with
    | Raise e =>
        (Raise e,
         mk_expansion_jacobian set.2 (_expanded_tape self) (depth self) (stop_at self))
    | Return _ =>
        match expand set.2 (depth self) (stop_at self) with
        | Raise e =>
            (Raise e,
             mk_expansion_jacobian set.2 (_expanded_tape self) (depth self) (stop_at self))
        | Return x =>
            (Return (get_parameters x),
             mk_expansion_jacobian set.2 (Some x) (depth self) (stop_at self))
        end
    end.
Proof.
  unfold classical_preprocessing, tape_set_parameters, bind, gets, lift, modify, ret, stack.
  cbv zeta. destruct (set_parameters (tape self) p) as [[[] | e] t]; cbn; [| reflexivity].
  destruct (expand t (depth self) (stop_at self)) as [x | e]; reflexivity.
Qed.

Lemma call_each_app (calls : list (list V)) (p : list V) (self : expansion_jacobian T) :
  call_each (calls ++ [p]) self = (classical_preprocessing p (call_each calls self)).2.
Proof.
  revert self. induction calls as [| q calls IH]; intros self; [reflexivity |].
  cbn [call_each app]. apply IH.
Qed.

Lemma classical_preprocessing_closure (p : list V) (self : expansion_jacobian T) :
  depth (classical_preprocessing p self).2 = depth self /\
  stop_at (classical_preprocessing p self).2 = stop_at self.
Proof.
  rewrite classical_preprocessing_run. cbv zeta.
  destruct (set_parameters (tape self) p).1; [| done].
  by destruct (expand _ _ _).
Qed.

Lemma call_each_closure (calls : list (list V)) (self : expansion_jacobian T) :
  depth (call_each calls self) = depth self /\
  stop_at (call_each calls self) = stop_at self.
Proof.
  revert self. induction calls as [| q calls IH]; intros self; [done |].
  cbn [call_each]. destruct (IH (classical_preprocessing q self).2) as [-> ->].
  apply classical_preprocessing_closure.
Qed.

(** C4 (amended): take the extractor built by
    [expansion_jacobian(tape0, depth, stop_at)] and call its
    preprocessing function with [p] after any earlier calls.  The call
    (i) runs [set_parameters p] on the extractor's tape; when that
    returns, the tape holds [p] and the call (ii) expands it with
    [depth] and [stop_at]; when the expansion returns [x], [x] is cached
    in [expanded_tape] and (iii) its parameters are returned.  When
    [set_parameters] or the expansion raises, the exception propagates
    and [expanded_tape] is left as the call found it. *)
Theorem classical_preprocessing_caches_current_expansion
    (tape0 : T) (d : nat) (s : option (OpData -> bool))
    (calls : list (list V)) (p : list V) :
  round_trip ->
  let self0 := expansion_jacobian__init__ tape0 d s in
  let before := call_each calls self0 in
  let run := classical_preprocessing p before in
  let set := set_parameters (tape before) p in
  expanded_tape self0 = None /\
  tape run.2 = set.2 /\
  run.2 = call_each (calls ++ [p]) self0 /\
  match set.1 with
  | Raise e => run.1 = Raise e /\ expanded_tape run.2 = expanded_tape before
  | Return _ =>
      get_parameters (tape run.2) = p /\
      match expand (tape run.2) d s with
      | Raise e => run.1 = Raise e /\ expanded_tape run.2 = expanded_tape before
      | Return x => run.1 = Return (get_parameters x) /\ expanded_tape run.2 = Some x
      end
  end.
Proof.
  intros Hrt self0 before run set.
  destruct (call_each_closure calls self0) as [Hd Hs]. fold before in Hd, Hs.
  cbn in Hd, Hs.
  assert (Hrun : run = classical_preprocessing p before) by reflexivity.
  rewrite classical_preprocessing_run in Hrun. cbv zeta in Hrun. fold set in Hrun.
  rewrite Hd, Hs in Hrun.
  split; [reflexivity |].
  assert (Htape : tape run.2 = set.2).
  { rewrite Hrun. destruct set.1; [| reflexivity]. by destruct (expand _ _ _). }
  split; [exact Htape |].
  split; [by rewrite call_each_app |].
  rewrite Htape. pose proof (Hrt (tape before) p) as Hp. fold set in Hp.
  rewrite Hrun. destruct set.1 as [[] | e]; [| done].
  split; [by apply Hp |].
  by destruct (expand set.2 d s).
Qed.
End ExpansionJacobian.

Lemma classical_preprocessing_caches_current_expansion_witness :
  let run := classical_preprocessing [3%Z; 4%Z] (call_each [[5%Z; 6%Z]] extractor0) in
  run.1 = Return [3%Z; 3%Z; 4%Z; 4%Z] /\
  expanded_tape run.2 = Some [3%Z; 3%Z; 4%Z; 4%Z].
Proof.
  assert (Hrt : @round_trip (list Z) Z list_tape) by (intros t p _; reflexivity).
  destruct (classical_preprocessing_caches_current_expansion
              [1%Z; 2%Z] 1 None [[5%Z; 6%Z]] [3%Z; 4%Z] Hrt) as (_ & _ & _ & _ & Hrun).
  exact Hrun.
Defined.

(** After a call that cached the expansion of [[1; 2]], a call with
    [[0]] writes 0 into the tape and raises in the expansion: the cache
    still holds the earlier call's tape. *)
Lemma failed_expansion_keeps_earlier_cache :
  let first := call_each (H := fragile_tape) [[1%Z; 2%Z]]
                 (expansion_jacobian__init__ [1%Z; 2%Z] 1 None) in
  let run := classical_preprocessing (H := fragile_tape) [0%Z] first in
  run.1 = Raise (ValueError "cannot decompose at 0") /\
  tape run.2 = [0%Z] /\
  expanded_tape run.2 = Some [1%Z; 1%Z; 2%Z; 2%Z].
Proof. vm_compute. done. Qed.

(** C4, as written, fails: with [fragile_tape] the second call leaves
    the first call's expansion in the cache. *)
Lemma stale_cache_counterexample :
  ~ cache_reflects_every_call (H := fragile_tape) [1%Z; 2%Z] 1 None.
Proof.
  intros Hc. destruct (Hc [[1%Z; 2%Z]] [0%Z]) as (_ & e & He & _).
  vm_compute in He. discriminate He.
Qed.

(** ** Queues *)

Lemma _append_fresh (o : Obj) (i : Info) (q : Queue) :
  Forall (fun x => obj_id x.1 <> obj_id o) q -> _append o i q = q ++ [(o, i)].
Proof.
  induction q as [| [x j] q IH]; intros Hq; [reflexivity |].
  inversion Hq as [| ? ? Hx Hq']; subst. simpl in *.
  rewrite decide_False by exact Hx. by rewrite IH.
Qed.

Lemma _remove_last_fresh (o : Obj) (i : Info) (q : Queue) :
  Forall (fun x => obj_id x.1 <> obj_id o) q -> _remove o (q ++ [(o, i)]) = q.
Proof.
  induction q as [| [x j] q IH]; intros Hq; simpl.
  - by rewrite decide_True.
  - inversion Hq as [| ? ? Hx Hq']; subst. simpl in *.
    rewrite decide_False by exact Hx. by rewrite IH.
Qed.

Lemma _remove_append (o o' : Obj) (i : Info) (q : Queue) :
  obj_id o' <> obj_id o -> _remove o (_append o' i q) = _append o' i (_remove o q).
Proof.
  intros Hne. induction q as [| [x j] q IH]; simpl.
  - by rewrite decide_False.
  - destruct (decide (obj_id x = obj_id o')) as [Hx' | Hx'];
      destruct (decide (obj_id x = obj_id o)) as [Hx | Hx]; simpl.
    + congruence.
    + rewrite decide_False by exact Hx. by rewrite decide_True.
    + by rewrite decide_True.
    + rewrite !decide_False by assumption. by rewrite IH.
Qed.

Lemma _remove_enqueue (o : Obj) (l q : Queue) :
  Forall (fun x => obj_id x.1 <> obj_id o) l ->
  _remove o (enqueue q l) = enqueue (_remove o q) l.
Proof.
  unfold enqueue. revert q. induction l as [| [x j] l IH]; intros q Hl; [reflexivity |].
  inversion Hl as [| ? ? Hx Hl']; subst. simpl in *.
  rewrite IH by exact Hl'. by rewrite _remove_append.
Qed.

Lemma objects_append_elem (o x : Obj) (i : Info) (q : Queue) :
  x ∈ objects (_append o i q) -> x ∈ objects q \/ x = o.
Proof.
  unfold objects. induction q as [| [y j] q IH]; simpl.
  - intros ->%list_elem_of_singleton. by right.
  - case_decide; simpl.
    + intros H'. by left.
    + intros [-> | H']%elem_of_cons; [left; left |].
      destruct (IH H') as [? | ?]; [left; by right | by right].
Qed.

Lemma objects_enqueue_elem (x : Obj) (l q : Queue) :
  x ∈ objects (enqueue q l) -> x ∈ objects q \/ x ∈ objects l.
Proof.
  unfold enqueue. revert q. induction l as [| [y j] l IH]; intros q; simpl.
  - by left.
  - intros H. destruct (IH _ H) as [H' | H'].
    + apply objects_append_elem in H' as [? | ->]; [by left | right; left].
    + right. unfold objects in *. simpl. by right.
Qed.

(** ** Steps of the queuing context *)

Lemma alter_as_insert (f : Tape -> Tape) (t : nat) (T : Tape) (h : gmap nat Tape) :
  h !! t = Some T -> alter f t h = <[t := f T]> h.
Proof.
  intros Ht. apply map_eq. intros k. destruct (decide (k = t)) as [-> | Hk].
  - by rewrite lookup_alter_eq, lookup_insert_eq, Ht.
  - by rewrite lookup_alter_ne, lookup_insert_ne.
Qed.

Lemma recording_scope_Some (h : gmap nat Tape) (s : list nat) (n r : nat) :
  recording_scope (mkContext h s n) = Some r <->
  head s = Some r /\ exists R, h !! r = Some R /\ recording R = true.
Proof.
  unfold recording_scope, active_context. simpl. destruct s as [| a s]; simpl.
  - split; [discriminate | intros [? _]; discriminate].
  - destruct (h !! a) as [A |] eqn:Ha.
    + destruct (recording A) eqn:Hrec; split.
      * intros [= <-]. eauto.
      * by intros [[= <-] _].
      * discriminate.
      * intros [[= <-] (R & HR & Hr)]. congruence.
    + split; [discriminate |]. intros [[= <-] (R & HR & _)]. congruence.
Qed.

Lemma recording_scope_next_id (h : gmap nat Tape) (s : list nat) (n n' : nat) :
  recording_scope (mkContext h s n') = recording_scope (mkContext h s n).
Proof. reflexivity. Qed.

(** The scope that records depends on the heap only through the tape on
    top of the stack. *)
Lemma recording_scope_insert_other (h : gmap nat Tape) (s : list nat) (n n' t : nat) (T : Tape) :
  head s <> Some t ->
  recording_scope (mkContext (<[t := T]> h) s n') = recording_scope (mkContext h s n).
Proof.
  intros Hs. unfold recording_scope, active_context. simpl.
  destruct s as [| a s]; [reflexivity |]. simpl in *.
  rewrite lookup_insert_ne by congruence. reflexivity.
Qed.

Lemma recording_scope_insert_same (h : gmap nat Tape) (s : list nat) (n n' r : nat) (R R' : Tape) :
  recording_scope (mkContext h s n) = Some r -> h !! r = Some R ->
  recording R' = recording R ->
  recording_scope (mkContext (<[r := R']> h) s n') = Some r.
Proof.
  intros (Hs & R0 & HR0 & Hrec)%recording_scope_Some HR Heq.
  apply recording_scope_Some. split; [exact Hs |].
  exists R'. rewrite lookup_insert_eq. split; [reflexivity | congruence].
Qed.

Lemma append_run_Some (h : gmap nat Tape) (s : list nat) (n r : nat) (R : Tape)
    (o : Obj) (i : Info) :
  recording_scope (mkContext h s n) = Some r -> h !! r = Some R ->
  QueuingContext_append o i (mkContext h s n)
  = (Return tt, mkContext (<[r := with_queue (_append o i) R]> h) s n).
Proof.
  intros Hr HR. unfold QueuingContext_append, modify. rewrite Hr.
  unfold update_tape, set_heap. simpl. by rewrite (alter_as_insert _ _ R).
Qed.

Lemma append_run_None (σ : Context) (o : Obj) (i : Info) :
  recording_scope σ = None -> QueuingContext_append o i σ = (Return tt, σ).
Proof. intros Hr. unfold QueuingContext_append, modify. by rewrite Hr. Qed.

Lemma remove_run_Some (h : gmap nat Tape) (s : list nat) (n r : nat) (R : Tape) (o : Obj) :
  recording_scope (mkContext h s n) = Some r -> h !! r = Some R ->
  QueuingContext_remove o (mkContext h s n)
  = (Return tt, mkContext (<[r := with_queue (_remove o) R]> h) s n).
Proof.
  intros Hr HR. unfold QueuingContext_remove, modify. rewrite Hr.
  unfold update_tape, set_heap. simpl. by rewrite (alter_as_insert _ _ R).
Qed.

Lemma remove_run_None (σ : Context) (o : Obj) :
  recording_scope σ = None -> QueuingContext_remove o σ = (Return tt, σ).
Proof. intros Hr. unfold QueuingContext_remove, modify. by rewrite Hr. Qed.

(** Forwarding a queue, entry by entry, to the scope that records. *)
Lemma forward_run_Some (l : Queue) (h : gmap nat Tape) (s : list nat) (n r : nat) (R : Tape) :
  recording_scope (mkContext h s n) = Some r -> h !! r = Some R ->
  for_ l (fun '(obj, info) => QueuingContext_append obj info) (mkContext h s n)
  = (Return tt, mkContext (<[r := with_queue (fun q => enqueue q l) R]> h) s n).
Proof.
  revert h R. induction l as [| [o i] l IH]; intros h R Hr HR.
  - simpl. unfold ret. destruct R. unfold with_queue, enqueue. simpl.
    by rewrite insert_id.
  - cbn [for_]. unfold bind. rewrite (append_run_Some _ _ _ r R) by assumption.
    rewrite (IH _ (with_queue (_append o i) R)).
    + rewrite insert_insert_eq. reflexivity.
    + by eapply recording_scope_insert_same.
    + by rewrite lookup_insert_eq.
Qed.

Lemma forward_run_None (l : Queue) (σ : Context) :
  recording_scope σ = None ->
  for_ l (fun '(obj, info) => QueuingContext_append obj info) σ = (Return tt, σ).
Proof.
  intros Hr. induction l as [| [o i] l IH]; [reflexivity |].
  cbn [for_]. unfold bind. by rewrite append_run_None.
Qed.

Lemma length_instantiated_by (cs : list Cmd) (a b : nat) :
  length (instantiated_by a cs) = length (instantiated_by b cs).
Proof.
  revert a b. induction cs as [| [d | o] cs IH]; intros a b; simpl; auto.
Qed.

Lemma instantiations_Instantiate (d : OpData) (cs : list Cmd) :
  instantiations (Instantiate d :: cs) = S (instantiations cs).
Proof.
  unfold instantiations. simpl. by rewrite (length_instantiated_by cs 1 0).
Qed.

(** Running the commands of a body inside the scope [t]. *)
Lemma run_cmds_run (cs : list Cmd) (h : gmap nat Tape) (s : list nat) (n t : nat) (T : Tape) :
  recording_scope (mkContext h s n) = Some t -> h !! t = Some T ->
  for_ cs run_cmd (mkContext h s n)
  = (Return tt,
     mkContext (<[t := with_queue (fun q => enqueue q (bare (queued_by n cs))) T]> h)
       s (n + instantiations cs)).
Proof.
  revert h n T. induction cs as [| c cs IH]; intros h n T Hr HT.
  - simpl. unfold ret, instantiations. simpl. rewrite Nat.add_0_r.
    destruct T. unfold with_queue, enqueue. simpl. by rewrite insert_id.
  - cbn [for_]. unfold bind. destruct c as [d | o]; cbn [run_cmd].
    + unfold bind, fresh. cbn [next_id heap _active_contexts].
      rewrite (append_run_Some _ _ (S n) t T) by assumption.
      rewrite (IH _ _ (with_queue (_append (Operation n d) []) T)).
      * rewrite insert_insert_eq, instantiations_Instantiate.
        do 2 f_equal. lia.
      * by eapply recording_scope_insert_same.
      * by rewrite lookup_insert_eq.
    + rewrite (append_run_Some _ _ _ t T) by assumption.
      rewrite (IH _ _ (with_queue (_append o []) T)).
      * rewrite insert_insert_eq. reflexivity.
      * by eapply recording_scope_insert_same.
      * by rewrite lookup_insert_eq.
Qed.

Lemma run_body_run (b : Body) (h : gmap nat Tape) (s : list nat) (n t : nat) (T : Tape) :
  recording_scope (mkContext h s n) = Some t -> h !! t = Some T ->
  run_body b (mkContext h s n)
  = (body_outcome b,
     mkContext (<[t := with_queue (fun q => enqueue q (bare (queued_by n (cmds b)))) T]> h)
       s (n + instantiations (cmds b))).
Proof.
  intros Hr HT. unfold run_body, bind. rewrite (run_cmds_run _ _ _ _ t T) by assumption.
  unfold body_outcome. by destruct (raises b).
Qed.

Lemma head_not_elem (s : list nat) (t : nat) : t ∉ s -> head s <> Some t.
Proof. destruct s as [| a s]; [done |]. simpl. intros Hs [= ->]. apply Hs. by left. Qed.

(** A tape used as a scope while nothing records outside it: whatever
    its class, leaving it forwards nothing. *)
Lemma scope_run_silent {A} (m : M Context A) (res : outcome A)
    (h : gmap nat Tape) (s : list nat) (n n' t : nat) (T1 : Tape) :
  t ∉ s ->
  recording_scope (mkContext h s n) = None ->
  m (mkContext h (t :: s) n) = (res, mkContext (<[t := T1]> h) (t :: s) n') ->
  with_ (tape_enter t) (fun _ => tape_exit t) (fun _ => m) (mkContext h s n)
  = (res, mkContext (<[t := T1]> h) s n').
Proof.
  intros Hts Hnone Hm. unfold with_, tape_enter, bind.
  rewrite append_run_None by exact Hnone.
  unfold modify, set_active_contexts. cbn [heap _active_contexts next_id].
  rewrite Hm. unfold tape_exit, bind, modify, set_active_contexts.
  cbn [heap _active_contexts next_id tail].
  assert (Hnone' : recording_scope (mkContext (<[t := T1]> h) s n') = None).
  { rewrite (recording_scope_insert_other _ _ n) by by apply head_not_elem. exact Hnone. }
  unfold _process_queue, bind, lookup_tape. cbn [heap].
  rewrite lookup_insert_eq. cbn beta iota.
  destruct (non_queuing (tape_class T1)).
  - unfold NonQueuingTape__process_queue, QuantumTape__process_queue, bind, ret, lookup_tape.
    cbn [heap]. rewrite lookup_insert_eq. cbn beta iota.
    rewrite forward_run_None by exact Hnone'.
    rewrite remove_run_None by exact Hnone'. reflexivity.
  - reflexivity.
Qed.

(** A non-queuing tape used as a scope inside the recording scope [r]:
    it registers with [r] on entry; on exit its queue is forwarded to
    [r] and the tape itself is removed from [r]. *)
Lemma scope_run_forwarding {A} (m : M Context A) (res : outcome A)
    (h : gmap nat Tape) (s : list nat) (n n' t r : nat) (R T1 : Tape) :
  t ∉ s ->
  recording_scope (mkContext h s n) = Some r ->
  h !! r = Some R ->
  non_queuing (tape_class T1) = true ->
  m (mkContext (<[r := with_queue (_append (TapeRef t) []) R]> h) (t :: s) n)
  = (res, mkContext (<[t := T1]> (<[r := with_queue (_append (TapeRef t) []) R]> h))
            (t :: s) n') ->
  with_ (tape_enter t) (fun _ => tape_exit t) (fun _ => m) (mkContext h s n)
  = (res,
     mkContext
       (<[r := with_queue (fun q => _remove (TapeRef t)
                                      (enqueue (_append (TapeRef t) [] q) (_queue T1))) R]>
          (<[t := T1]> h))
       s n').
Proof.
  intros Hts Hr HR Hnq Hm.
  assert (Hrt : r <> t).
  { apply recording_scope_Some in Hr as [Hs _]. intros ->.
    by apply (head_not_elem s t Hts). }
  unfold with_, tape_enter, bind.
  rewrite (append_run_Some _ _ _ r R) by assumption.
  unfold modify, set_active_contexts. cbn [heap _active_contexts next_id].
  rewrite Hm. unfold tape_exit, bind, modify, set_active_contexts.
  cbn [heap _active_contexts next_id tail].
  set (R1 := with_queue (_append (TapeRef t) []) R).
  assert (Hr1 : recording_scope (mkContext (<[t := T1]> (<[r := R1]> h)) s n') = Some r).
  { rewrite (recording_scope_insert_other _ _ n) by by apply head_not_elem.
    by eapply recording_scope_insert_same. }
  assert (HR1 : <[t := T1]> (<[r := R1]> h) !! r = Some R1).
  { rewrite lookup_insert_ne by congruence. by rewrite lookup_insert_eq. }
  unfold _process_queue, bind, lookup_tape. cbn [heap].
  rewrite lookup_insert_eq. cbn beta iota. rewrite Hnq.
  unfold NonQueuingTape__process_queue, QuantumTape__process_queue, bind, ret, lookup_tape.
  cbn [heap]. rewrite lookup_insert_eq. cbn beta iota.
  rewrite (forward_run_Some _ _ _ _ r R1) by assumption.
  erewrite (remove_run_Some _ _ _ r).
  2: { eapply recording_scope_insert_same; [exact Hr1 | exact HR1 | reflexivity]. }
  2: { by rewrite lookup_insert_eq. }
  rewrite insert_insert_eq.
  rewrite (insert_insert_ne _ t r) by congruence.
  rewrite insert_insert_eq.
  reflexivity.
Qed.

(** ** [make_tape] *)

Lemma queued_by_Instantiate (ds : list OpData) (n : nat) :
  queued_by n (Instantiate <$> ds) = created n ds.
Proof. revert n. induction ds as [| d ds IH]; intros n; simpl; [done |]. by rewrite IH. Qed.

Lemma instantiations_Instantiate_all (ds : list OpData) :
  instantiations (Instantiate <$> ds) = length ds.
Proof.
  induction ds as [| d ds IH]; [reflexivity |].
  rewrite fmap_cons, instantiations_Instantiate, IH. reflexivity.
Qed.

Lemma created_ids (ds : list OpData) (n : nat) (o : Obj) :
  o ∈ created n ds -> n <= obj_id o.
Proof.
  revert n. induction ds as [| d ds IH]; intros n; simpl.
  - by intros ?%elem_of_nil.
  - intros [-> | H]%elem_of_cons; [simpl; lia |]. apply IH in H. lia.
Qed.

Lemma enqueue_created (ds : list OpData) (q : Queue) (n : nat) :
  Forall (fun x => obj_id x.1 < n) q ->
  enqueue q (bare (created n ds)) = q ++ bare (created n ds).
Proof.
  revert q n. induction ds as [| d ds IH]; intros q n Hq; simpl.
  - by rewrite app_nil_r.
  - unfold enqueue, bare in *. simpl. rewrite _append_fresh.
    + rewrite IH, <- app_assoc; [reflexivity |].
      apply Forall_app. split.
      * eapply Forall_impl; [exact Hq |]. simpl. intros; lia.
      * repeat constructor.
    + eapply Forall_impl; [exact Hq |]. simpl. intros; lia.
Qed.

Lemma objects_bare (os : list Obj) : objects (bare os) = os.
Proof.
  unfold objects, bare. rewrite <- list_fmap_compose. apply list_fmap_id.
Qed.

(** The scope that [make_tape] opens around the quantum function. *)
Lemma qfunc_scope_run (fn : QFunc) (args : Args) (c : TapeClass)
    (h : gmap nat Tape) (s : list nat) (n t : nat) :
  t ∉ s ->
  recording_scope (mkContext h s n) = None ->
  h !! t = Some (mkTape c [] true) ->
  with_ (tape_enter t) (fun _ => tape_exit t) (fun _ => call_qfunc fn args)
    (mkContext h s n)
  = (match qraises (fn args) with Some e => Raise e | None => Return tt end,
     mkContext (<[t := mkTape c (bare (created n (qops (fn args)))) true]> h) s
       (n + length (qops (fn args)))).
Proof.
  intros Hts Hnone Ht.
  erewrite scope_run_silent; [reflexivity | exact Hts | exact Hnone |].
  unfold call_qfunc.
  rewrite (run_body_run _ _ _ _ t (mkTape c [] true)).
  - cbn [cmds]. rewrite queued_by_Instantiate, instantiations_Instantiate_all.
    unfold with_queue. cbn [tape_class _queue recording].
    rewrite enqueue_created by constructor. reflexivity.
  - apply recording_scope_Some. split; [reflexivity |]. eauto.
  - exact Ht.
Qed.

Lemma wf_fresh (σ : Context) : wf σ -> heap σ !! next_id σ = None.
Proof.
  intros Hwf. destruct (heap σ !! next_id σ) as [T |] eqn:HT; [| done].
  apply (wf_heap σ Hwf) in HT. lia.
Qed.

Lemma wf_stack_lt (σ : Context) (t : nat) :
  wf σ -> t ∈ _active_contexts σ -> t < next_id σ.
Proof.
  intros Hwf [T HT]%(wf_stack σ Hwf). by apply (wf_heap σ Hwf) in HT.
Qed.

(** The complete effect of a call of [make_tape(fn)]. *)
Lemma make_tape_run (fn : QFunc) (args : Args) (σ : Context) :
  wf σ ->
  make_tape fn args σ
  = (match qraises (fn args) with
     | Some e => Raise e
     | None => Return (next_id σ)
     end,
     mkContext
       (<[next_id σ := mkTape (make_tape_class σ)
                         (bare (created (S (next_id σ)) (qops (fn args)))) true]>
          (heap σ))
       (_active_contexts σ)
       (S (next_id σ) + length (qops (fn args)))).
Proof.
  intros Hwf. pose proof (wf_fresh σ Hwf) as Hfresh.
  destruct σ as [h s n]. cbn [heap _active_contexts next_id] in *.
  unfold make_tape, make_tape_class, bind, get_active_tape, gets, active_context.
  cbn [heap _active_contexts next_id].
  destruct s as [| a s]; cbn [head].
  - unfold construct_tape, bind, fresh, modify, set_heap, ret.
    cbn [heap _active_contexts next_id].
    rewrite (qfunc_scope_run fn args QuantumTape).
    + rewrite insert_insert_eq. by destruct (qraises (fn args)).
    + apply not_elem_of_nil.
    + reflexivity.
    + by rewrite lookup_insert_eq.
  - assert (Han : a < n).
    { apply (wf_stack_lt _ a Hwf). by left. }
    destruct (wf_stack _ Hwf a) as [A HA]; [by left |]. cbn [heap] in HA.
    rewrite HA.
    unfold with_ at 1. unfold stop_recording_enter, stop_recording_exit, bind, lookup_tape,
      modify, update_tape, set_heap, ret. cbn [heap _active_contexts next_id].
    rewrite HA. cbn beta iota.
    rewrite (alter_as_insert _ _ A) by exact HA.
    cbn [heap _active_contexts next_id].
    rewrite lookup_insert_eq. cbn beta iota.
    unfold construct_tape, bind, fresh, modify, set_heap, ret.
    cbn [heap _active_contexts next_id tape_class with_recording].
    rewrite (qfunc_scope_run fn args (tape_class A)).
    + assert (Hheap :
        alter (with_recording (recording A)) a
          (<[n := mkTape (tape_class A) (bare (created (S n) (qops (fn args)))) true]>
             (<[n := mkTape (tape_class A) [] true]>
                (<[a := with_recording false A]> h)))
        = <[n := mkTape (tape_class A) (bare (created (S n) (qops (fn args)))) true]> h).
      { apply map_eq. intros k. destruct (decide (k = a)) as [-> | Hka].
        - rewrite lookup_alter_eq. repeat (rewrite lookup_insert_ne by lia).
          rewrite lookup_insert_eq, lookup_insert_ne by lia.
          rewrite HA. by destruct A.
        - rewrite lookup_alter_ne by congruence.
          destruct (decide (k = n)) as [-> | Hkn].
          + by rewrite !lookup_insert_eq.
          + repeat (rewrite lookup_insert_ne by congruence). reflexivity. }
      destruct (qraises (fn args)); cbn [heap _active_contexts next_id];
        by rewrite Hheap.
    + intros [-> | Hin]%elem_of_cons; [lia |].
      assert (n < n); [| lia]. apply (wf_stack_lt _ n Hwf). by right.
    + unfold recording_scope, active_context. cbn [heap _active_contexts head].
      rewrite lookup_insert_ne by lia. by rewrite lookup_insert_eq.
    + by rewrite lookup_insert_eq.
Qed.

Lemma active_RY_wf : wf active_RY.
Proof.
  split; unfold active_RY; cbn [heap _active_contexts next_id].
  - intros t T [<- _]%lookup_singleton_Some. lia.
  - intros t T o [<- <-]%lookup_singleton_Some.
    cbn. intros ->%list_elem_of_singleton. simpl. lia.
  - intros t ->%list_elem_of_singleton. by rewrite lookup_singleton_eq.
Qed.

(** C3: a call of [make_tape(fn)] in a well-formed context gives back a
    new tape, unless [fn] raises, in which case that exception
    propagates.  Either way the new tape holds exactly the operations
    instantiated while [fn] ran, the context stack and the recording
    scope are those of before the call, and every tape that existed
    before is unchanged and holds none of these operations. *)
Theorem make_tape_isolates_and_restores (fn : QFunc) (args : Args) (σ : Context) :
  wf σ ->
  let run := make_tape fn args σ in
  let new_tape := next_id σ in
  let ops := created (S (next_id σ)) (qops (fn args)) in
  run.1 = match qraises (fn args) with
          | Some e => Raise e
          | None => Return new_tape
          end /\
  heap σ !! new_tape = None /\
  (exists T, heap run.2 !! new_tape = Some T /\
             objects (_queue T) = ops /\ tape_class T = make_tape_class σ) /\
  _active_contexts run.2 = _active_contexts σ /\
  recording_scope run.2 = recording_scope σ /\
  (forall t T, heap σ !! t = Some T ->
     heap run.2 !! t = Some T /\ forall o, o ∈ ops -> o ∉ objects (_queue T)).
Proof.
  intros Hwf run new_tape ops. subst run. rewrite make_tape_run by exact Hwf.
  cbn [fst snd heap _active_contexts next_id].
  pose proof (wf_fresh σ Hwf) as Hfresh.
  split; [reflexivity |]. split; [exact Hfresh |]. split; [| split; [| split]].
  - eexists. rewrite lookup_insert_eq. split; [reflexivity |].
    cbn [_queue tape_class]. by rewrite objects_bare.
  - reflexivity.
  - destruct σ as [h s n]. cbn [heap _active_contexts next_id] in *.
    apply (recording_scope_insert_other h s n).
    destruct s as [| a s]; [done |]. simpl. intros [= ->].
    assert (n < n); [| lia]. apply (wf_stack_lt _ n Hwf). by left.
  - intros t T HT. split.
    + rewrite lookup_insert_ne; [exact HT |]. intros <-. congruence.
    + intros o Ho Hin. apply created_ids in Ho.
      pose proof (wf_queue σ Hwf t T o HT Hin). lia.
Qed.

Lemma make_tape_isolates_and_restores_witness :
  (make_tape qfunc [5%Z] active_RY).1 = Return 2 /\
  heap (make_tape qfunc [5%Z] active_RY).2 !! 0
  = Some (mkTape QuantumTape [(Operation 1 (RY 1), [])] true).
Proof.
  destruct (make_tape_isolates_and_restores qfunc [5%Z] active_RY active_RY_wf)
    as (Hres & _ & _ & _ & _ & Hold).
  split; [exact Hres |].
  apply (Hold 0). reflexivity.
Defined.

(** ** [single_tape_transform.__call__] *)

Lemma queued_by_elem (cs : list Cmd) (m : nat) (o : Obj) :
  o ∈ queued_by m cs -> m <= obj_id o \/ o ∈ requeued cs.
Proof.
  revert m. induction cs as [| [d | x] cs IH]; intros m; simpl.
  - by intros ?%elem_of_nil.
  - intros [-> | H]%elem_of_cons; [left; simpl; lia |].
    destruct (IH _ H) as [? | ?]; [left; lia | by right].
  - intros [-> | H]%elem_of_cons; [right; by left |].
    destruct (IH _ H) as [? | ?]; [by left | right; by right].
Qed.

Lemma instantiated_by_queued (cs : list Cmd) (m : nat) (o : Obj) :
  o ∈ instantiated_by m cs -> o ∈ queued_by m cs /\ m <= obj_id o.
Proof.
  revert m. induction cs as [| [d | x] cs IH]; intros m; simpl.
  - by intros ?%elem_of_nil.
  - intros [-> | H]%elem_of_cons; [split; [by left | simpl; lia] |].
    destruct (IH _ H) as [? ?]. split; [by right | lia].
  - intros H. destruct (IH _ H) as [? ?]. split; [by right | done].
Qed.

Lemma Forall_objects (P : nat -> Prop) (q : Queue) :
  (forall o, o ∈ objects q -> P (obj_id o)) -> Forall (fun x => P (obj_id x.1)) q.
Proof.
  intros H. apply Forall_forall. intros [o i] Hin. apply H.
  unfold objects. apply list_elem_of_fmap. by exists (o, i).
Qed.

(** The queue a body leaves in a tape that started empty does not
    mention the identity [n] of that tape, as long as the body queues
    again only objects that existed before. *)
Lemma body_queue_avoids (cs : list Cmd) (n : nat) :
  Forall (fun o => obj_id o < n) (requeued cs) ->
  Forall (fun x => obj_id x.1 <> obj_id (TapeRef n))
    (enqueue [] (bare (queued_by (S n) cs))).
Proof.
  intros Hre. apply (Forall_objects (fun k => k <> n)). intros o Ho.
  apply objects_enqueue_elem in Ho as [Ho | Ho]; [by apply elem_of_nil in Ho |].
  rewrite objects_bare in Ho. apply queued_by_elem in Ho as [Ho | Ho]; [lia |].
  rewrite Forall_forall in Hre. apply Hre in Ho. lia.
Qed.

(** Registering a new tape with a scope and removing it again after its
    queue was forwarded leaves just the forwarded entries. *)
Lemma register_forward_remove (n : nat) (q Q : Queue) :
  Forall (fun x => obj_id x.1 <> obj_id (TapeRef n)) q ->
  Forall (fun x => obj_id x.1 <> obj_id (TapeRef n)) Q ->
  _remove (TapeRef n) (enqueue (_append (TapeRef n) [] q) Q) = enqueue q Q.
Proof.
  intros Hq HQ. rewrite _remove_enqueue by exact HQ.
  rewrite _append_fresh by exact Hq. by rewrite _remove_last_fresh.
Qed.

(** A transform called on a tape whose class already has the mixin
    raises where it builds the class of the output tape: nothing was
    allocated, entered or queued. *)
Lemma single_tape_transform_fused
    (self : single_tape_transform) (tape : nat) (args : Args) (σ : Context) (T : Tape) :
  heap σ !! tape = Some T ->
  non_queuing (tape_class T) = true ->
  single_tape_transform__call__ self tape args σ
  = (Raise (TypeError "Cannot create a consistent method resolution order (MRO) for bases NonQueuingTape"), σ).
Proof.
  intros HT Hnq.
  unfold single_tape_transform__call__, bind, lookup_tape, lift, fuse_NonQueuingTape.
  rewrite HT. cbn beta iota. rewrite Hnq. reflexivity.
Qed.

(** The complete effect of a call of a registered single-tape transform
    on a tape of a class that can be fused. *)
Lemma single_tape_transform_call_run
    (self : single_tape_transform) (tape : nat) (args : Args) (σ : Context) (T : Tape) :
  wf σ ->
  heap σ !! tape = Some T ->
  non_queuing (tape_class T) = false ->
  let b := tf_body (transform_fn self) (seen_by_body σ tape T) args in
  single_tape_transform__call__ self tape args σ
  = (match raises b with
     | Some e => Raise e
     | None => Return (next_id σ)
     end,
     mkContext
       (<[next_id σ :=
            mkTape (match raises b with
                    | Some _ => fused (tape_class T)
                    | None => tape_class T
                    end)
              (output_queue (next_id σ) b) true]>
          (match recording_scope σ with
           | Some r => alter (with_queue (forwarded (next_id σ)
                                            (output_queue (next_id σ) b)))
                         r (heap σ)
           | None => heap σ
           end))
       (_active_contexts σ)
       (S (next_id σ) + instantiations (cmds b))).
Proof.
  intros Hwf HT Hnq b. pose proof (wf_fresh σ Hwf) as Hfresh.
  assert (Htn : tape < next_id σ) by (by eapply wf_heap).
  assert (Hns : next_id σ ∉ _active_contexts σ).
  { intros Hin. apply (wf_stack_lt _ _ Hwf) in Hin. lia. }
  unfold seen_by_body in b.
  destruct σ as [h s n]. cbn [heap _active_contexts next_id] in *.
  unfold single_tape_transform__call__, bind, lookup_tape. cbn [heap].
  rewrite HT. cbn beta iota.
  unfold lift, fuse_NonQueuingTape. rewrite Hnq. fold (fused (tape_class T)).
  unfold construct_tape, bind, fresh, modify, set_heap, ret.
  cbn [heap _active_contexts next_id].
  set (T0 := mkTape (fused (tape_class T)) [] true).
  set (T1 := mkTape (fused (tape_class T)) (output_queue n b) true).
  set (m := (fun σ => match heap σ !! tape with
                      | Some T' => (Return T', σ)
                      | None => (Raise (AttributeError "no such tape"), σ)
                      end) : M Context Tape).
  (* the body, run inside the new scope, over any heap that holds the
     input tape as the body is to see it *)
  assert (Hbody : forall (h0 : gmap nat Tape) (T' : Tape),
    h0 !! tape = Some T' -> h0 !! n = Some T0 ->
    b = tf_body (transform_fn self) T' args ->
    (let (o, σ') := m (mkContext h0 (n :: s) (S n)) in
     match o with
     | Return a => run_body (tf_body (transform_fn self) a args) σ'
     | Raise e => (Raise e, σ')
     end)
    = (body_outcome b, mkContext (<[n := T1]> h0) (n :: s) (S n + instantiations (cmds b)))).
  { intros h0 T' H0 Hn0 Hb. subst m. cbn [heap]. rewrite H0. rewrite <- Hb.
    rewrite (run_body_run _ _ _ _ n T0).
    - reflexivity.
    - apply recording_scope_Some. split; [reflexivity |]. exists T0. done.
    - exact Hn0. }
  destruct (recording_scope (mkContext h s n)) as [r |] eqn:Hrec.
  - (* a scope [r] records: it receives the queue *)
    pose proof Hrec as (Hhead & R & HR & HRrec)%recording_scope_Some.
    assert (Hrn : r <> n).
    { intros ->. rewrite Hfresh in HR. discriminate. }
    erewrite (scope_run_forwarding _ (body_outcome b) _ s (S n) _ n r R T1).
    2: exact Hns.
    2: { rewrite (recording_scope_insert_other h s n) by by apply head_not_elem.
         exact Hrec. }
    2: { rewrite lookup_insert_ne by congruence. exact HR. }
    2: reflexivity.
    2: { destruct (decide (r = tape)) as [-> | Hrtape].
         - apply (Hbody _ (with_queue (_append (TapeRef n) []) T)).
           + rewrite lookup_insert_eq. congruence.
           + rewrite lookup_insert_ne by congruence. by rewrite lookup_insert_eq.
           + subst b. by rewrite decide_True.
         - apply (Hbody _ T).
           + rewrite lookup_insert_ne by congruence. rewrite lookup_insert_ne by lia.
             exact HT.
           + rewrite lookup_insert_ne by congruence. by rewrite lookup_insert_eq.
           + subst b. rewrite decide_False by congruence. reflexivity. }
    rewrite insert_insert_eq.
    rewrite (alter_as_insert _ _ R) by exact HR.
    change (with_queue (forwarded n (output_queue n b)) R)
      with (with_queue (fun q => _remove (TapeRef n)
                          (enqueue (_append (TapeRef n) [] q) (_queue T1))) R).
    unfold body_outcome. destruct (raises b) as [e |].
    + rewrite (insert_insert_ne _ r n) by congruence. reflexivity.
    + unfold update_tape, set_heap. cbn [heap _active_contexts next_id].
      rewrite (insert_insert_ne _ r n) by congruence.
      erewrite alter_as_insert by apply lookup_insert_eq.
      rewrite insert_insert_eq. reflexivity.
  - (* nothing records outside *)
    erewrite (scope_run_silent _ (body_outcome b) _ s (S n) _ n T1).
    2: exact Hns.
    2: { rewrite (recording_scope_insert_other h s n) by by apply head_not_elem.
         exact Hrec. }
    2: { apply (Hbody _ T).
         - rewrite lookup_insert_ne by lia. exact HT.
         - by rewrite lookup_insert_eq.
         - subst b. rewrite decide_False by discriminate. reflexivity. }
    rewrite insert_insert_eq.
    unfold body_outcome. destruct (raises b) as [e |].
    + reflexivity.
    + unfold update_tape, set_heap. cbn [heap _active_contexts next_id].
      erewrite alter_as_insert by apply lookup_insert_eq.
      rewrite insert_insert_eq. reflexivity.
Qed.

(** The same for a tape that is not itself the scope recording at that
    moment: the body sees the tape as it was before the call. *)
Lemma single_tape_transform_run_raw
    (self : single_tape_transform) (tape : nat) (args : Args) (σ : Context) (T : Tape) :
  wf σ ->
  heap σ !! tape = Some T ->
  non_queuing (tape_class T) = false ->
  recording_scope σ <> Some tape ->
  let b := tf_body (transform_fn self) T args in
  single_tape_transform__call__ self tape args σ
  = (match raises b with
     | Some e => Raise e
     | None => Return (next_id σ)
     end,
     mkContext
       (<[next_id σ :=
            mkTape (match raises b with
                    | Some _ => fused (tape_class T)
                    | None => tape_class T
                    end)
              (output_queue (next_id σ) b) true]>
          (match recording_scope σ with
           | Some r => alter (with_queue (forwarded (next_id σ)
                                            (output_queue (next_id σ) b)))
                         r (heap σ)
           | None => heap σ
           end))
       (_active_contexts σ)
       (S (next_id σ) + instantiations (cmds b))).
Proof.
  intros Hwf HT Hnq Hrt b.
  rewrite (single_tape_transform_call_run self tape args σ T Hwf HT Hnq).
  unfold seen_by_body. rewrite decide_False by exact Hrt. reflexivity.
Qed.

(** When the body queues again only objects that existed before the
    call, the recording scope ends up with its old queue followed by
    the forwarded entries. *)
Lemma single_tape_transform_run
    (self : single_tape_transform) (tape : nat) (args : Args) (σ : Context) (T : Tape) :
  wf σ ->
  heap σ !! tape = Some T ->
  non_queuing (tape_class T) = false ->
  recording_scope σ <> Some tape ->
  let b := tf_body (transform_fn self) T args in
  Forall (fun o => obj_id o < next_id σ) (requeued (cmds b)) ->
  single_tape_transform__call__ self tape args σ
  = (match raises b with
     | Some e => Raise e
     | None => Return (next_id σ)
     end,
     mkContext
       (<[next_id σ :=
            mkTape (match raises b with
                    | Some _ => fused (tape_class T)
                    | None => tape_class T
                    end)
              (output_queue (next_id σ) b) true]>
          (match recording_scope σ with
           | Some r => alter (with_queue (fun q => enqueue q (output_queue (next_id σ) b)))
                         r (heap σ)
           | None => heap σ
           end))
       (_active_contexts σ)
       (S (next_id σ) + instantiations (cmds b))).
Proof.
  intros Hwf HT Hnq Hrt b Hre.
  rewrite (single_tape_transform_run_raw self tape args σ T Hwf HT Hnq Hrt). fold b.
  destruct (recording_scope σ) as [r |] eqn:Hrec; [| reflexivity].
  destruct σ as [h s n]. cbn [heap _active_contexts next_id] in *.
  pose proof Hrec as (_ & R & HR & _)%recording_scope_Some.
  rewrite !(alter_as_insert _ _ R) by exact HR.
  do 4 f_equal. unfold with_queue, forwarded. f_equal.
  apply register_forward_remove.
  - apply (Forall_objects (fun k => k <> n)). intros o Ho.
    pose proof (wf_queue _ Hwf r R o HR Ho). simpl in *. lia.
  - by apply body_queue_avoids.
Qed.

Lemma objects_append_mono (o x : Obj) (i : Info) (q : Queue) :
  x ∈ objects q -> x ∈ objects (_append o i q).
Proof.
  unfold objects. induction q as [| [y j] q IH]; simpl.
  - by intros ?%elem_of_nil.
  - case_decide; simpl; [done |].
    intros [-> | H']%elem_of_cons; [by left | right; by apply IH].
Qed.

Lemma objects_append_new (o : Obj) (i : Info) (q : Queue) :
  (forall x, x ∈ objects q -> obj_id x = obj_id o -> x = o) ->
  o ∈ objects (_append o i q).
Proof.
  unfold objects. induction q as [| [y j] q IH]; simpl; intros Hq.
  - by left.
  - case_decide as Hy; simpl.
    + rewrite (Hq y); [by left | by left | exact Hy].
    + right. apply IH. intros x Hx. apply Hq. by right.
Qed.

Lemma objects_enqueue_mono (x : Obj) (l q : Queue) :
  x ∈ objects q -> x ∈ objects (enqueue q l).
Proof.
  unfold enqueue. revert q. induction l as [| [y j] l IH]; intros q Hx; [done |].
  simpl. apply IH. by apply objects_append_mono.
Qed.

Lemma objects_enqueue_new (o : Obj) (l q : Queue) :
  o ∈ objects l ->
  (forall x, x ∈ objects q \/ x ∈ objects l -> obj_id x = obj_id o -> x = o) ->
  o ∈ objects (enqueue q l).
Proof.
  revert q. induction l as [| [y j] l IH]; intros q Ho Hsame.
  - by apply elem_of_nil in Ho.
  - change (enqueue q ((y, j) :: l)) with (enqueue (_append y j q) l).
    unfold objects in Ho. simpl in Ho. apply elem_of_cons in Ho as [-> | Ho].
    + apply objects_enqueue_mono, objects_append_new.
      intros x Hx. apply Hsame. by left.
    + apply IH; [exact Ho |]. intros x [Hx | Hx] Hid.
      * apply objects_append_elem in Hx as [Hx | ->].
        -- apply Hsame; [by left | exact Hid].
        -- apply Hsame; [right; unfold objects; simpl; by left | exact Hid].
      * apply Hsame; [right; unfold objects; simpl; by right | exact Hid].
Qed.

(** An operation created by the body is the only queued object with its
    identity. *)
Lemma instantiated_unique (cs : list Cmd) (m : nat) (o x : Obj) :
  Forall (fun y => obj_id y < m) (requeued cs) ->
  o ∈ instantiated_by m cs -> x ∈ queued_by m cs ->
  obj_id x = obj_id o -> x = o.
Proof.
  revert m. induction cs as [| [d | y] cs IH]; intros m Hre; simpl in *.
  - by intros ?%elem_of_nil.
  - intros [-> | Ho]%elem_of_cons [-> | Hx]%elem_of_cons Hid; simpl in *.
    + reflexivity.
    + apply queued_by_elem in Hx as [Hx | Hx]; [lia |].
      rewrite Forall_forall in Hre. apply Hre in Hx. lia.
    + apply instantiated_by_queued in Ho as [_ Ho]. lia.
    + apply (IH (S m)); try assumption.
      eapply Forall_impl; [exact Hre |]. simpl. intros; lia.
  - inversion Hre as [| ? ? Hy Hre']; subst.
    intros Ho [-> | Hx]%elem_of_cons Hid.
    + apply instantiated_by_queued in Ho as [_ Ho]. lia.
    + by apply (IH m).
Qed.

(** Every operation created by the body is in the output queue, and
    forwarding that queue puts it into the receiving queue as well. *)
Lemma instantiated_in_output (b : Body) (n : nat) (o : Obj) (q : Queue) :
  Forall (fun y => obj_id y < n) (requeued (cmds b)) ->
  Forall (fun x => obj_id x.1 < n) q ->
  o ∈ instantiated_by (S n) (cmds b) ->
  o ∈ objects (output_queue n b) /\ o ∈ objects (enqueue q (output_queue n b)).
Proof.
  intros Hre Hq Ho.
  assert (Hre' : Forall (fun y => obj_id y < S n) (requeued (cmds b))).
  { eapply Forall_impl; [exact Hre |]. simpl. intros; lia. }
  assert (Hout : o ∈ objects (output_queue n b)).
  { unfold output_queue. apply objects_enqueue_new.
    - rewrite objects_bare. by apply instantiated_by_queued in Ho as [Ho _].
    - intros x [Hx | Hx] Hid; [by apply elem_of_nil in Hx |].
      rewrite objects_bare in Hx. by eapply instantiated_unique. }
  split; [exact Hout |].
  apply objects_enqueue_new; [exact Hout |].
  intros x [Hx | Hx] Hid.
  - unfold objects in Hx. apply list_elem_of_fmap in Hx as ([x' i] & -> & Hx).
    rewrite Forall_forall in Hq. apply Hq in Hx. simpl in *.
    apply instantiated_by_queued in Ho as [_ Ho]. lia.
  - unfold output_queue in Hx. apply objects_enqueue_elem in Hx as [Hx | Hx];
      [by apply elem_of_nil in Hx |].
    rewrite objects_bare in Hx. by eapply instantiated_unique.
Qed.

Lemma recording_with_input_wf : wf recording_with_input.
Proof.
  split; unfold recording_with_input; cbn [heap _active_contexts next_id].
  - intros t T [[<- _] | [_ [<- _]%lookup_singleton_Some]]%lookup_insert_Some; lia.
  - intros t T o [[<- <-] | [_ [<- <-]%lookup_singleton_Some]]%lookup_insert_Some Ho;
      cbn in Ho;
      repeat (apply elem_of_cons in Ho as [-> | Ho]; [simpl; lia |]);
      by apply elem_of_nil in Ho.
  - intros t ->%list_elem_of_singleton. rewrite lookup_insert_ne by lia.
    by rewrite lookup_singleton_eq.
Qed.

(** C1 as written fails: the [RX] that the transform of the docstring
    instantiates is, after the call, in the tape that was recording
    when the transform was called. *)
Lemma never_in_enclosing_scope_counterexample :
  ~ never_in_enclosing_scope my_transform 2 [1%Z; 2%Z] recording_with_input.
Proof.
  intros H.
  apply (H input_tape (Operation 6 (mkOp "RX" [5%Z] [1] false)) 0
           (mkTape QuantumTape
              [(Operation 1 (RY 1), []);
               (Operation 3 Hadamard, []);
               (Operation 6 (mkOp "RX" [5%Z] [1] false), []);
               (Operation 7 (mkOp "RY" [10%Z] [1] false), []);
               (Operation 8 (mkOp "CZ" [] [1; 0] false), [])] true)).
  - reflexivity.
  - cbn. by left.
  - by left.
  - vm_compute. reflexivity.
  - cbn. right. right. by left.
Qed.

Lemma records_append_mono (k : nat) (o : Obj) (i : Info) (q : Queue) :
  k ∈ obj_id <$> objects q -> k ∈ obj_id <$> objects (_append o i q).
Proof.
  unfold objects. induction q as [| [y j] q IH]; simpl.
  - by intros ?%elem_of_nil.
  - case_decide; simpl; [done |].
    intros [-> | H']%elem_of_cons; [by left | right; by apply IH].
Qed.

Lemma records_append_new (o : Obj) (i : Info) (q : Queue) :
  obj_id o ∈ obj_id <$> objects (_append o i q).
Proof.
  unfold objects. induction q as [| [y j] q IH]; simpl.
  - by left.
  - case_decide as Hy; simpl; [rewrite <- Hy; by left | by right].
Qed.

Lemma records_enqueue_mono (k : nat) (l q : Queue) :
  k ∈ obj_id <$> objects q -> k ∈ obj_id <$> objects (enqueue q l).
Proof.
  unfold enqueue. revert q. induction l as [| [y j] l IH]; intros q Hk; [done |].
  simpl. apply IH. by apply records_append_mono.
Qed.

Lemma records_enqueue_new (o : Obj) (l q : Queue) :
  o ∈ objects l -> obj_id o ∈ obj_id <$> objects (enqueue q l).
Proof.
  revert q. induction l as [| [y j] l IH]; intros q Ho.
  - by apply elem_of_nil in Ho.
  - change (enqueue q ((y, j) :: l)) with (enqueue (_append y j q) l).
    unfold objects in Ho. simpl in Ho. apply elem_of_cons in Ho as [-> | Ho].
    + apply records_enqueue_mono, records_append_new.
    + by apply IH.
Qed.

Lemma records_remove_other (k : nat) (o : Obj) (q : Queue) :
  k <> obj_id o ->
  k ∈ obj_id <$> objects q -> k ∈ obj_id <$> objects (_remove o q).
Proof.
  intros Hk. unfold objects. induction q as [| [y j] q IH]; simpl; [done |].
  case_decide as Hy; simpl.
  - intros [-> | H']%elem_of_cons; [congruence | exact H'].
  - intros [-> | H']%elem_of_cons; [by left | right; by apply IH].
Qed.

(** Every operation the body creates is a key of the output queue, and
    stays one in a queue the output queue is forwarded to. *)
Lemma instantiated_recorded (b : Body) (n : nat) (o : Obj) (q : Queue) :
  o ∈ instantiated_by (S n) (cmds b) ->
  obj_id o ∈ obj_id <$> objects (output_queue n b) /\
  obj_id o ∈ obj_id <$> objects (forwarded n (output_queue n b) q).
Proof.
  intros [Ho Hid]%instantiated_by_queued.
  assert (Hout : obj_id o ∈ obj_id <$> objects (output_queue n b)).
  { unfold output_queue. apply records_enqueue_new. by rewrite objects_bare. }
  split; [exact Hout |].
  unfold forwarded. apply records_remove_other; [simpl; lia |].
  apply list_elem_of_fmap in Hout as (x & Hx & Hin).
  rewrite Hx. by apply records_enqueue_new.
Qed.

(** C1, as amended: a registered single-tape transform is called on an
    input tape in a well-formed context.  If the class of the input
    tape already has the non-queuing mixin, the call raises [TypeError]
    and changes nothing.  Otherwise the call ends as the body does and
    restores the context stack; every operation instantiated in the body
    is recorded by the output tape; every tape that existed before,
    other than the scope that was recording at the call, is unchanged
    and records none of these operations; and the scope that was
    recording, if any, was sent the output queue on exit and records
    every one of them.  When the body queues again only objects that
    existed before the call, that scope holds its old queue followed by
    the entries of the output queue. *)
Theorem transform_output_is_forwarded
    (self : single_tape_transform) (tape : nat) (args : Args) (σ : Context) (T : Tape) :
  wf σ ->
  heap σ !! tape = Some T ->
  let run := single_tape_transform__call__ self tape args σ in
  let out := next_id σ in
  let b := tf_body (transform_fn self) (seen_by_body σ tape T) args in
  let Q := output_queue out b in
  if non_queuing (tape_class T) then
    (exists m, run.1 = Raise (TypeError m)) /\ run.2 = σ
  else
    run.1 = match raises b with Some e => Raise e | None => Return out end /\
    heap σ !! out = None /\
    _active_contexts run.2 = _active_contexts σ /\
    (exists Tout, heap run.2 !! out = Some Tout /\
       _queue Tout = Q /\
       forall o, o ∈ instantiated_by (S out) (cmds b) -> records Tout o) /\
    (forall t Told, heap σ !! t = Some Told -> recording_scope σ <> Some t ->
       heap run.2 !! t = Some Told /\
       forall o, o ∈ instantiated_by (S out) (cmds b) -> ~ records Told o) /\
    (forall r R, recording_scope σ = Some r -> heap σ !! r = Some R ->
       heap run.2 !! r = Some (with_queue (forwarded out Q) R) /\
       (forall o, o ∈ instantiated_by (S out) (cmds b) ->
          records (with_queue (forwarded out Q) R) o) /\
       (Forall (fun o => obj_id o < out) (requeued (cmds b)) ->
        forwarded out Q (_queue R) = enqueue (_queue R) Q /\
        forall o, o ∈ instantiated_by (S out) (cmds b) ->
          o ∈ objects Q /\ o ∈ objects (enqueue (_queue R) Q))).
Proof.
  intros Hwf HT run out b Q. subst run.
  destruct (non_queuing (tape_class T)) eqn:Hnq.
  { rewrite (single_tape_transform_fused self tape args σ T HT Hnq).
    split; [by eexists | reflexivity]. }
  rewrite (single_tape_transform_call_run self tape args σ T Hwf HT Hnq).
  fold b. fold out. fold Q. cbn [fst snd heap _active_contexts next_id].
  pose proof (wf_fresh σ Hwf) as Hfresh. fold out in Hfresh.
  split; [reflexivity |]. split; [exact Hfresh |]. split; [reflexivity |].
  split; [| split].
  - eexists. rewrite lookup_insert_eq. split; [reflexivity |].
    split; [reflexivity |]. intros o Ho. unfold records. cbn [_queue].
    by apply (instantiated_recorded b out o []).
  - intros t Told Ht Hnr. split.
    + rewrite lookup_insert_ne by (intros <-; congruence).
      destruct (recording_scope σ) as [r |]; [| exact Ht].
      rewrite lookup_alter_ne by congruence. exact Ht.
    + intros o [_ Ho]%instantiated_by_queued Hin. unfold records in Hin.
      apply list_elem_of_fmap in Hin as (x & Hx & Hin).
      pose proof (wf_queue σ Hwf t Told x Ht Hin). unfold out in *. lia.
  - intros r R Hr HR. rewrite Hr.
    assert (Hq : Forall (fun x => obj_id x.1 < out) (_queue R)).
    { apply (Forall_objects (fun k => k < out)). intros o Ho.
      by apply (wf_queue σ Hwf r R). }
    split; [| split].
    + rewrite lookup_insert_ne by (intros <-; congruence).
      by rewrite lookup_alter_eq, HR.
    + intros o Ho. unfold records, with_queue. cbn [_queue].
      by apply (instantiated_recorded b out o (_queue R)).
    + intros Hre. split.
      * apply register_forward_remove.
        -- eapply Forall_impl; [exact Hq |]. simpl. intros; lia.
        -- by apply body_queue_avoids.
      * intros o Ho. by apply (instantiated_in_output b out o (_queue R)).
Qed.

Lemma transform_output_is_forwarded_witness :
  (single_tape_transform__call__ my_transform 2 [1%Z; 2%Z] recording_with_input).1
  = Return 5 /\
  _active_contexts
    (single_tape_transform__call__ my_transform 2 [1%Z; 2%Z] recording_with_input).2
  = [0].
Proof.
  destruct (transform_output_is_forwarded my_transform 2 [1%Z; 2%Z]
              recording_with_input input_tape recording_with_input_wf eq_refl)
    as (Hres & _ & Hstack & _).
  split; [exact Hres | exact Hstack].
Defined.

(** ** [qfunc_transform] *)

Lemma created_ids_lt (ds : list OpData) (n : nat) (o : Obj) :
  o ∈ created n ds -> obj_id o < n + length ds.
Proof.
  revert n. induction ds as [| d ds IH]; intros n; simpl.
  - by intros ?%elem_of_nil.
  - intros [-> | H]%elem_of_cons; [simpl; lia |]. apply IH in H. lia.
Qed.

(** [make_tape] leaves the context well formed. *)
Lemma make_tape_wf (fn : QFunc) (args : Args) (σ : Context) :
  wf σ -> wf (make_tape fn args σ).2.
Proof.
  intros Hwf. rewrite make_tape_run by exact Hwf. cbn [snd].
  split; cbn [heap _active_contexts next_id].
  - intros t T [[<- _] | [_ Ht]]%lookup_insert_Some; [lia |].
    apply (wf_heap σ Hwf) in Ht. lia.
  - intros t T o [[<- <-] | [_ Ht]]%lookup_insert_Some Ho.
    + cbn [_queue] in Ho. rewrite objects_bare in Ho.
      apply created_ids_lt in Ho. lia.
    + pose proof (wf_queue σ Hwf t T o Ht Ho). lia.
  - intros t Ht. destruct (wf_stack σ Hwf t Ht) as [T HT].
    exists T. rewrite lookup_insert_ne; [exact HT |].
    intros <-. rewrite (wf_fresh σ Hwf) in HT. discriminate.
Qed.

(** What [make_tape] leaves for the transform that follows it in the
    wrapper: the materialized tape, in a well-formed context in which
    that tape is not the recording scope. *)
Lemma make_tape_then
    (fn : QFunc) (args : Args) (σ : Context) :
  wf σ ->
  qraises (fn args) = None ->
  let made := make_tape fn args σ in
  let tape := next_id σ in
  let T := mkTape (make_tape_class σ) (bare (created (S tape) (qops (fn args)))) true in
  wf made.2 /\
  made = (Return tape, made.2) /\
  heap made.2 !! tape = Some T /\
  recording_scope made.2 <> Some tape.
Proof.
  intros Hwf Hfn made tape T.
  pose proof (make_tape_wf fn args σ Hwf) as Hwf'. fold made in Hwf'.
  split; [exact Hwf' |]. split; [| split].
  - subst made. rewrite make_tape_run by exact Hwf. by rewrite Hfn.
  - subst made. rewrite make_tape_run by exact Hwf. cbn [snd heap].
    by rewrite lookup_insert_eq.
  - subst made. rewrite make_tape_run by exact Hwf. cbn [snd].
    intros [Hhead _]%recording_scope_Some.
    assert (Hin : tape ∈ _active_contexts σ).
    { destruct (_active_contexts σ); [discriminate |].
      injection Hhead as ->. by left. }
    pose proof (wf_stack_lt σ tape Hwf Hin). unfold tape in *. lia.
Qed.

(** The wrapper that [qfunc_transform] builds, run on a quantum function
    and a transform body that do not raise, for a materialized tape
    whose class can be fused. *)
Lemma qfunc_internal_wrapper_run
    (t : single_tape_transform) (targs : Args) (fn : QFunc) (args : Args) (σ : Context) :
  wf σ ->
  qraises (fn args) = None ->
  let made := make_tape fn args σ in
  let tape := next_id σ in
  let T := mkTape (make_tape_class σ) (bare (created (S tape) (qops (fn args)))) true in
  non_queuing (tape_class T) = false ->
  let b := tf_body (transform_fn t) T targs in
  raises b = None ->
  let transformed := single_tape_transform__call__ t tape targs made.2 in
  let out := next_id made.2 in
  made.1 = Return tape /\
  heap made.2 !! tape = Some T /\
  transformed.1 = Return out /\
  heap transformed.2 !! out = Some (mkTape (tape_class T) (output_queue out b) true) /\
  qfunc_internal_wrapper t targs fn args σ
  = (Return (measurements (mkTape (tape_class T) (output_queue out b) true)),
     transformed.2).
Proof.
  intros Hwf Hfn made tape T Hnq b Hb transformed out.
  destruct (make_tape_then fn args σ Hwf Hfn) as (Hwf' & Hmade & HT & Hrt).
  fold made in Hwf', Hmade, HT, Hrt. fold tape in Hmade, HT, Hrt. fold T in HT.
  pose proof (single_tape_transform_run_raw t tape targs made.2 T Hwf' HT Hnq Hrt) as Hrun.
  cbv zeta in Hrun. fold b in Hrun. rewrite Hb in Hrun.
  fold transformed in Hrun. fold out in Hrun.
  split; [by rewrite Hmade |]. split; [exact HT |].
  split; [by rewrite Hrun |].
  split; [rewrite Hrun; cbn [snd heap]; by rewrite lookup_insert_eq |].
  unfold qfunc_internal_wrapper, bind. fold made. rewrite Hmade. cbn [snd].
  fold transformed. rewrite Hrun. unfold lookup_tape. cbn [heap].
  rewrite lookup_insert_eq. reflexivity.
Qed.




(** * Further properties *)

(** ** Execution by the decorated circuit *)

Lemma execute_each_run (dev : Device) (ts : list nat) (rs : list Res) (w : World) :
  Forall2 (fun t r => execute dev t = Return r) ts rs ->
  execute_each dev (VTape <$> ts) w
  = (Return rs, mkWorld (qtape w) (events w ++ executions ts)).
Proof.
  intros H. revert w. induction H as [| t r ts rs Ht _ IH]; intros w.
  - simpl. unfold ret, executions. simpl. rewrite app_nil_r. by destruct w.
  - cbn [fmap list_fmap execute_each]. unfold bind at 1. cbn [execute_tape].
    unfold bind at 1. unfold log, modify, lift. rewrite Ht.
    unfold bind at 1. rewrite IH. unfold ret, executions. cbn [qtape events].
    rewrite <- app_assoc. reflexivity.
Qed.

Lemma execute_each_stops (dev : Device) (pre post : list nat) (t : nat)
    (rs : list Res) (e : exn) (w : World) :
  Forall2 (fun t r => execute dev t = Return r) pre rs ->
  execute dev t = Raise e ->
  execute_each dev (VTape <$> (pre ++ t :: post)) w
  = (Raise e, mkWorld (qtape w) (events w ++ executions (pre ++ [t]))).
Proof.
  intros H Ht. revert w. induction H as [| t0 r ts rs Ht0 _ IH]; intros w.
  - cbn [app fmap list_fmap execute_each]. unfold bind at 1. cbn [execute_tape].
    unfold bind at 1. unfold log, modify, lift. rewrite Ht. reflexivity.
  - cbn [app fmap list_fmap execute_each]. unfold bind at 1. cbn [execute_tape].
    unfold bind at 1. unfold log, modify, lift. rewrite Ht0.
    unfold bind at 1. rewrite IH. unfold executions. cbn [qtape events].
    rewrite <- app_assoc. reflexivity.
Qed.

(** X1: in the auto-execute branch with post-processing, a transform
    that returns [(tapes, fn)] has its tapes executed on the circuit's
    device once each, in the order of the list, and the call returns
    [fn] of the results in that same order; with an empty list nothing
    is executed and [fn] receives the empty list. *)
Theorem post_processing_executes_in_order
    (fn : QNodeTransformFn) (targs : Args) (qnode : QNode) (args : Args) (w : World)
    (t : nat) (tapes : list nat) (f : list Res -> outcome Value) (rs : list Res) :
  construct qnode args = Return t ->
  qt_call fn (OnQNode qnode t) targs
  = Return (VTuple [VList (VTape <$> tapes); VCallable f]) ->
  Forall2 (fun tp r => execute (device qnode) tp = Return r) tapes rs ->
  qnode_internal_wrapper_multi true true fn targs qnode args w
  = (f rs,
     mkWorld (Some t)
       (events w ++ [Constructed args; TransformCalled (OnQNode qnode t) targs]
          ++ executions tapes ++ [PostProcessed rs])).
Proof.
  intros Hc Hcall Hex.
  unfold qnode_internal_wrapper_multi, qnode_construct, qnode_qtape, call_transform,
    execute_all, call_processing, log, bind, modify, lift, ret.
  cbn [andb negb qtape events]. rewrite Hc. cbn [qtape events]. rewrite Hcall.
  cbn [unpack2 iterate fst snd].
  rewrite (execute_each_run _ _ rs) by exact Hex. cbn [qtape events].
  rewrite <- !app_assoc. reflexivity.
Qed.

Lemma post_processing_executes_in_order_witness :
  qnode_internal_wrapper_multi true true
    (mkQNodeTransformFn false 2 inspect_empty
       (fun _ _ => Return (VTuple [VList (VTape <$> [3; 4]); sum_results])))
    [1%Z] circuit7 [] empty_world
  = (Return (VNumber 7%Z),
     mkWorld (Some 7)
       ([] ++ [Constructed [];
               TransformCalled
                 (OnQNode circuit7 7) [1%Z]]
          ++ executions [3; 4] ++ [PostProcessed [3%Z; 4%Z]])).
Proof.
  apply (post_processing_executes_in_order _ [1%Z] circuit7 [] empty_world 7 [3; 4]
           (fun res => Return (VNumber (foldr Z.add 0%Z res))) [3%Z; 4%Z]).
  - reflexivity.
  - reflexivity.
  - repeat constructor.
Defined.

(** X2: when the device raises on a tape, the tapes after it are not
    executed, the processing function is not called, and the device's
    exception is what the decorated circuit raises. *)
Theorem execution_stops_at_first_error
    (fn : QNodeTransformFn) (targs : Args) (qnode : QNode) (args : Args) (w : World)
    (t : nat) (pre post : list nat) (bad : nat) (f : Value) (rs : list Res) (e : exn) :
  construct qnode args = Return t ->
  qt_call fn (OnQNode qnode t) targs
  = Return (VTuple [VList (VTape <$> (pre ++ bad :: post)); f]) ->
  Forall2 (fun tp r => execute (device qnode) tp = Return r) pre rs ->
  execute (device qnode) bad = Raise e ->
  qnode_internal_wrapper_multi true true fn targs qnode args w
  = (Raise e,
     mkWorld (Some t)
       (events w ++ [Constructed args; TransformCalled (OnQNode qnode t) targs]
          ++ executions (pre ++ [bad]))).
Proof.
  intros Hc Hcall Hex Hbad.
  unfold qnode_internal_wrapper_multi, qnode_construct, qnode_qtape, call_transform,
    execute_all, call_processing, log, bind, modify, lift, ret.
  cbn [andb negb qtape events]. rewrite Hc. cbn [qtape events]. rewrite Hcall.
  cbn [unpack2 iterate fst snd].
  rewrite (execute_each_stops _ _ _ _ rs e) by assumption. cbn [qtape events].
  rewrite <- !app_assoc. reflexivity.
Qed.

Lemma execution_stops_at_first_error_witness :
  qnode_internal_wrapper_multi true true
    (mkQNodeTransformFn false 2 inspect_empty
       (fun _ _ => Return (VTuple [VList (VTape <$> ([3] ++ 4 :: [5])); sum_results])))
    [1%Z] flaky_circuit [] empty_world
  = (Raise (UserError "device error"),
     mkWorld (Some 7)
       ([] ++ [Constructed []; TransformCalled (OnQNode flaky_circuit 7) [1%Z]]
          ++ executions ([3] ++ [4]))).
Proof.
  apply (execution_stops_at_first_error _ [1%Z] flaky_circuit [] empty_world 7
           [3] [5] 4 sum_results [3%Z]).
  - reflexivity.
  - reflexivity.
  - repeat constructor.
  - reflexivity.
Defined.

(** X3: when constructing the circuit's tape raises, every wrapper the
    registrar can build (either branch, any classification) raises that
    exception at once: the transform is not called and nothing is
    executed. *)
Theorem construct_error_propagates
    (fn : QNodeTransformFn) (targs : Args) (qnode : QNode) (args : Args) (w : World)
    (auto_execute post_process : bool) (e : exn) :
  construct qnode args = Raise e ->
  let multi :=
    qnode_internal_wrapper_multi auto_execute post_process fn targs qnode args w in
  let single := qnode_internal_wrapper_single fn qnode args w in
  multi.1 = Raise e /\ events multi.2 = events w ++ [Constructed args] /\
  single.1 = Raise e /\ events single.2 = events w ++ [Constructed args].
Proof.
  intros Hc multi single. subst multi single.
  unfold qnode_internal_wrapper_multi, qnode_internal_wrapper_single, qnode_construct,
    log, bind, modify, lift.
  cbn [qtape events]. rewrite Hc. repeat split.
Qed.

Lemma construct_error_propagates_witness :
  (qnode_internal_wrapper_single (one_parameter_transform inspect_empty)
     broken_circuit [] empty_world).1
  = Raise (UserError "bad arguments").
Proof.
  exact (proj1 (proj2 (proj2
    (construct_error_propagates (one_parameter_transform inspect_empty) []
       broken_circuit [] empty_world true true _ eq_refl)))).
Defined.

Lemma unpack2_Return (v a b : Value) :
  unpack2 v = Return (a, b) <-> v = VTuple [a; b] \/ v = VList [a; b].
Proof.
  split.
  - destruct v as [| r | t | l | l | f]; try discriminate;
      destruct l as [| x [| y [| z l]]]; try discriminate;
      intros [= -> ->]; auto.
  - intros [-> | ->]; reflexivity.
Qed.

(** X4: where the wrapper unpacks the transform's result into tapes and
    a processing function, a result that is not a pair (tuple or list
    of exactly two items) makes the call raise before any tape is
    executed: [ValueError] for a tuple or list of another length,
    [TypeError] for anything else. *)
Theorem unpack_error_before_execution
    (fn : QNodeTransformFn) (targs : Args) (qnode : QNode) (args : Args) (w : World)
    (t : nat) (v : Value) :
  construct qnode args = Return t ->
  qt_call fn (OnQNode qnode t) targs = Return v ->
  (forall a b, v <> VTuple [a; b] /\ v <> VList [a; b]) ->
  exists e,
    qnode_internal_wrapper_multi true true fn targs qnode args w
    = (Raise e,
       mkWorld (Some t)
         (events w ++ [Constructed args; TransformCalled (OnQNode qnode t) targs])) /\
    match v with
    | VTuple _ | VList _ => exists m, e = ValueError m
    | _ => exists m, e = TypeError m
    end.
Proof.
  intros Hc Hcall Hv.
  assert (Hun : exists e, unpack2 v = Raise e /\
                          match v with
                          | VTuple _ | VList _ => exists m, e = ValueError m
                          | _ => exists m, e = TypeError m
                          end).
  { destruct v as [| r | x | l | l | f]; simpl; eauto;
      destruct l as [| a [| b [| c l]]]; simpl; eauto;
      destruct (Hv a b) as [H1 H2]; congruence. }
  destruct Hun as (e & He & Hkind). exists e. split; [| exact Hkind].
  unfold qnode_internal_wrapper_multi, qnode_construct, qnode_qtape, call_transform,
    log, bind, modify, lift, ret.
  cbn [andb negb qtape events]. rewrite Hc. cbn [qtape events]. rewrite Hcall, He.
  rewrite <- app_assoc. reflexivity.
Qed.

Lemma unpack_error_before_execution_witness :
  exists e,
    qnode_internal_wrapper_multi true true manual_transform [1%Z] circuit7 [] empty_world
    = (Raise e,
       mkWorld (Some 7) [Constructed []; TransformCalled (OnQNode circuit7 7) [1%Z]]) /\
    exists m, e = TypeError m.
Proof.
  apply (unpack_error_before_execution manual_transform [1%Z] circuit7 [] empty_world
           7 (VNumber 0%Z) eq_refl eq_refl).
  intros a b. split; discriminate.
Defined.

(** ** Registration *)

Lemma execute_each_extends (dev : Device) (l : list Value) (w : World) :
  exists rest, events (execute_each dev l w).2 = events w ++ rest.
Proof.
  revert w. induction l as [| v l IH]; intros w.
  - exists []. simpl. by rewrite app_nil_r.
  - cbn [execute_each]. unfold bind at 1.
    destruct v as [| r | t | vs | vs | f];
      try (exists []; simpl; by rewrite app_nil_r).
    cbn [execute_tape]. unfold bind at 1, log, modify, lift.
    destruct (execute dev t) as [r | e].
    + unfold bind at 1.
      destruct (IH (mkWorld (qtape w) (events w ++ [Executed t]))) as [rest Hrest].
      destruct (execute_each dev l _) as [[rs | e] w']; unfold ret;
        cbn [snd events] in *;
        exists (Executed t :: rest); rewrite Hrest, <- app_assoc; reflexivity.
    + exists [Executed t]. reflexivity.
Qed.

Lemma execute_all_extends (dev : Device) (tapes : Value) (w : World) :
  exists rest, events (execute_all dev tapes w).2 = events w ++ rest.
Proof.
  unfold execute_all, bind, lift.
  destruct (iterate tapes) as [l | e]; [apply execute_each_extends |].
  exists []. simpl. by rewrite app_nil_r.
Qed.

Lemma call_processing_extends (fn : Value) (res : list Res) (w : World) :
  exists rest, events (call_processing fn res w).2 = events w ++ rest.
Proof.
  destruct fn as [| r | t | vs | vs | f];
    try (exists []; simpl; by rewrite app_nil_r).
  exists [PostProcessed res]. cbn [call_processing]. unfold bind, log, modify, lift.
  by destruct (f res).
Qed.

(** X5: what [qnode_transform] makes of the classification, for a
    transform with extra arguments and a call whose construction
    returns tape [t].  A registered single-tape transform, or a
    function annotated with one of the four no-processing annotations,
    is called on the tape [t], and nothing follows that call; a plain
    function that is unannotated or annotated
    [Tuple[List[QuantumTape], Callable]] is called on the circuit
    itself; a plain function with any other annotation is not called,
    and the decorated circuit returns [None].  No annotation is in both
    lists. *)
Theorem registration_classification
    (fn : QNodeTransformFn) (targs : Args) (q : QNode) (args : Args) (w : World) (t : nat) :
  1 < qt_parameters fn ->
  construct q args = Return t ->
  exists mk wr,
    qnode_transform (Callable fn) = Return (QNodeFactory mk) /\
    mk targs (IsQNode q) = Return wr /\
    let run := internal_wrapper wr args w in
    (is_single_tape_transform fn = true \/
     return_annotation fn ∈
       [ann_QuantumTape; ann_List_QuantumTape; ann_Tuple_QuantumTape_None;
        ann_Tuple_List_QuantumTape_None] ->
     internal_wrapper wr = qnode_internal_wrapper_multi true false fn targs q /\
     events run.2 = events w ++ [Constructed args; TransformCalled (OnTape t) targs]) /\
    (is_single_tape_transform fn = false ->
     return_annotation fn ∈ [inspect_empty; ann_Tuple_List_QuantumTape_Callable] ->
     internal_wrapper wr = qnode_internal_wrapper_multi true true fn targs q /\
     exists rest,
       events run.2
       = events w ++ Constructed args :: TransformCalled (OnQNode q t) targs :: rest) /\
    (is_single_tape_transform fn = false ->
     return_annotation fn ∉
       [inspect_empty; ann_Tuple_List_QuantumTape_Callable; ann_QuantumTape;
        ann_List_QuantumTape; ann_Tuple_QuantumTape_None;
        ann_Tuple_List_QuantumTape_None] ->
     internal_wrapper wr = qnode_internal_wrapper_multi false false fn targs q /\
     run = (Return VNone, mkWorld (Some t) (events w ++ [Constructed args]))) /\
    (forall a, a ∈ AUTO_EXECUTE_PROCESSING -> a ∉ AUTO_EXECUTE_NO_PROCESSING).
Proof.
  intros Hn Hc. unfold qnode_transform. rewrite decide_True by exact Hn.
  eexists _, _. split; [reflexivity |]. split; [reflexivity |].
  cbn [qnode_wrapper internal_wrapper]. cbv zeta.
  split; [| split; [| split]].
  - intros Hcls.
    assert (Hflags : auto_execute_of fn = true /\ post_process_of fn = false).
    { unfold post_process_of, auto_execute_of.
      destruct (is_single_tape_transform fn); [done |].
      destruct Hcls as [? | Hin]; [discriminate |].
      repeat (apply elem_of_cons in Hin as [Heq | Hin];
              [rewrite Heq; split; reflexivity |]).
      by apply elem_of_nil in Hin. }
    destruct Hflags as [-> ->]. split; [reflexivity |].
    unfold qnode_internal_wrapper_multi, qnode_construct, qnode_qtape,
      call_transform, log, bind, modify, lift, ret. simpl. rewrite Hc. simpl.
    rewrite <- app_assoc.
    destruct (qt_call fn (OnTape t) targs) as [v | e1]; simpl; [| reflexivity].
    destruct (is_tuple_ending_in_None v) as [[|] | e2]; simpl; [| reflexivity ..].
    by destruct (item0 v).
  - intros Hst Hin.
    assert (Hflags : auto_execute_of fn = true /\ post_process_of fn = true).
    { unfold post_process_of, auto_execute_of. rewrite Hst.
      repeat (apply elem_of_cons in Hin as [Heq | Hin];
              [rewrite Heq; split; reflexivity |]).
      by apply elem_of_nil in Hin. }
    destruct Hflags as [-> ->]. split; [reflexivity |].
    unfold qnode_internal_wrapper_multi, qnode_construct, qnode_qtape,
      call_transform, log, bind, modify, lift, ret. simpl. rewrite Hc. simpl.
    set (w2 := mkWorld (Some t)
                 ((events w ++ [Constructed args]) ++ [TransformCalled (OnQNode q t) targs])).
    assert (Hw2 : events w2
                  = events w ++ [Constructed args; TransformCalled (OnQNode q t) targs]).
    { subst w2. cbn [events]. by rewrite <- app_assoc. }
    destruct (qt_call fn (OnQNode q t) targs) as [r | e1]; cbn [snd].
    2: { exists []. exact Hw2. }
    destruct (unpack2 r) as [p | e2]; cbn [snd].
    2: { exists []. exact Hw2. }
    destruct (execute_all_extends (device q) p.1 w2) as [rest1 H1].
    destruct (execute_all (device q) p.1 w2) as [[res | e3] w3]; cbn [snd] in *.
    2: { exists rest1. rewrite H1, Hw2, <- app_assoc. reflexivity. }
    destruct (call_processing_extends p.2 res w3) as [rest2 H2].
    exists (rest1 ++ rest2). rewrite H2, H1, Hw2, <- !app_assoc. reflexivity.
  - intros Hst Hout.
    assert (Hflags : auto_execute_of fn = false /\ post_process_of fn = false).
    { unfold post_process_of, auto_execute_of. rewrite Hst.
      rewrite bool_decide_eq_false_2 by exact Hout. done. }
    destruct Hflags as [-> ->]. split; [reflexivity |].
    unfold qnode_internal_wrapper_multi, qnode_construct, log, bind, modify, lift, ret.
    simpl. rewrite Hc. reflexivity.
  - intros b Hb Hb'. unfold AUTO_EXECUTE_PROCESSING, AUTO_EXECUTE_NO_PROCESSING in *.
    repeat (apply elem_of_cons in Hb as [-> | Hb];
            [repeat (apply elem_of_cons in Hb' as [Hb' | Hb']; [discriminate Hb' |]);
             by apply elem_of_nil in Hb' |]).
    by apply elem_of_nil in Hb.
Qed.

Lemma registration_classification_witness :
  exists mk wr,
    qnode_transform (Callable two_parameter_tape_transform) = Return (QNodeFactory mk) /\
    mk [1%Z] (IsQNode circuit7) = Return wr /\
    events (internal_wrapper wr [] empty_world).2
    = [Constructed []; TransformCalled (OnTape 7) [1%Z]].
Proof.
  assert (Hn : 1 < qt_parameters two_parameter_tape_transform) by (simpl; lia).
  destruct (registration_classification two_parameter_tape_transform [1%Z] circuit7 []
              empty_world 7 Hn eq_refl) as (mk & wr & Hmk & Hwr & Hno & _).
  exists mk, wr. split; [exact Hmk |]. split; [exact Hwr |].
  apply Hno. right. by left.
Defined.

(** X6: a callable that takes no parameter at all cannot be registered:
    neither branch on the length of the signature defines the
    decorator, so [qfunc_transform] and [qnode_transform] both end in
    [UnboundLocalError] at registration, whether the callable was
    already a single-tape transform or not. *)
Theorem no_parameter_registration_fails :
  (forall (t : single_tape_transform),
      tf_parameters (transform_fn t) = 0 ->
      qfunc_transform (Registered t) = Raise (UnboundLocalError "make_qfunc_transform") /\
      qfunc_transform (Unregistered (Callable (transform_fn t)))
      = Raise (UnboundLocalError "make_qfunc_transform")) /\
  (forall (fn : QNodeTransformFn),
      qt_parameters fn = 0 ->
      qnode_transform (Callable fn) = Raise (UnboundLocalError "make_qnode_transform")).
Proof.
  split.
  - intros [f] Hn. cbn [transform_fn] in Hn. unfold qfunc_transform.
    cbn [negb callable_class_single_tape_transform single_tape_transform__init__
         transform_fn].
    rewrite Hn. split; reflexivity.
  - intros fn Hn. unfold qnode_transform. rewrite Hn. reflexivity.
Qed.

Lemma no_parameter_registration_fails_witness :
  qnode_transform (Callable no_parameter_transform)
  = Raise (UnboundLocalError "make_qnode_transform").
Proof.
  exact (proj2 no_parameter_registration_fails no_parameter_transform eq_refl).
Defined.

(** X7: what the wrapper for a transform of exactly one parameter does.
    A plain function is handled exactly as by the post-processing
    branch of the wrapper for transforms with extra arguments, with no
    extra arguments.  A registered single-tape transform is called on
    the circuit's tape; its one output tape is executed and the
    one-element list of results is returned as it is. *)
Theorem one_parameter_wrapper
    (fn : QNodeTransformFn) (qnode : QNode) (args : Args) (w : World) :
  (is_single_tape_transform fn = false ->
   qnode_internal_wrapper_single fn qnode args w
   = qnode_internal_wrapper_multi true true fn [] qnode args w) /\
  (is_single_tape_transform fn = true ->
   forall t t' r,
     construct qnode args = Return t ->
     qt_call fn (OnTape t) [] = Return (VTape t') ->
     execute (device qnode) t' = Return r ->
     qnode_internal_wrapper_single fn qnode args w
     = (Return (VList [VNumber r]),
        mkWorld (Some t)
          (events w ++ [Constructed args; TransformCalled (OnTape t) [];
                        Executed t'; PostProcessed [r]]))).
Proof.
  split.
  - intros Hst.
    unfold qnode_internal_wrapper_single, qnode_internal_wrapper_multi, qnode_construct,
      qnode_qtape, call_transform, log, bind, modify, lift, ret.
    cbn [andb negb qtape events]. rewrite Hst.
    destruct (construct qnode args) as [t | e]; [| reflexivity].
    cbn [qtape events].
    destruct (qt_call fn (OnQNode qnode t) []) as [v | e]; [| reflexivity].
    destruct (unpack2 v) as [[a b] | e]; reflexivity.
  - intros Hst t t' r Hc Hcall Hex.
    unfold qnode_internal_wrapper_single, qnode_construct, qnode_qtape, call_transform,
      execute_all, call_processing, log, bind, modify, lift, ret.
    cbn [qtape events]. rewrite Hst, Hc. cbn [qtape events]. rewrite Hcall.
    cbn [iterate fst snd execute_each execute_tape].
    unfold bind, log, modify, lift, ret. cbn [qtape events]. rewrite Hex.
    cbn [qtape events]. rewrite <- !app_assoc. reflexivity.
Qed.

Lemma one_parameter_wrapper_witness :
  qnode_internal_wrapper_single
    (mkQNodeTransformFn true 1 inspect_empty (fun _ _ => Return (VTape 9)))
    circuit7 [] empty_world
  = (Return (VList [VNumber 9%Z]),
     mkWorld (Some 7)
       ([] ++ [Constructed []; TransformCalled (OnTape 7) []; Executed 9;
               PostProcessed [9%Z]])).
Proof.
  apply (proj2 (one_parameter_wrapper
                  (mkQNodeTransformFn true 1 inspect_empty (fun _ _ => Return (VTape 9)))
                  circuit7 [] empty_world) eq_refl 7 9 9%Z);
    reflexivity.
Defined.

(** ** The Jacobian extractors *)

(** X8: an expansion-mode extractor for a tape whose interface has no
    adapter is built without error and has no expanded tape; every call
    of it raises [TypeError], because the adapter it would call is
    [None], and changes nothing: the preprocessing function never runs,
    so the tape keeps its parameters and no expansion is cached. *)
Theorem unsupported_interface_raises_on_call {T V R : Type} `{TapeProtocol T V}
    (backend : JacobianFn (list V -> M (expansion_jacobian T) (list V)) ->
               list V -> M (expansion_jacobian T) R)
    (tape0 : T) (d : nat) (s : option (OpData -> bool)) (args : list V)
    (self : expansion_jacobian T) :
  tape_interface tape0 ∉ supported_interfaces ->
  jac_fn tape0 = None /\
  expanded_tape (expansion_jacobian__init__ tape0 d s) = None /\
  exists m, expansion_jacobian__call__ backend tape0 args self = (Raise (TypeError m), self).
Proof.
  intros Hi.
  assert (Hnone : jac_fn tape0 = None).
  { unfold jac_fn, _make_jacobian_fn, supported_interfaces in *.
    repeat case_decide; try reflexivity; exfalso; apply Hi;
      match goal with Heq : tape_interface _ = _ |- _ => rewrite Heq end;
      repeat constructor. }
  split; [exact Hnone |]. split; [reflexivity |].
  unfold expansion_jacobian__call__. rewrite Hnone. eexists. reflexivity.
Qed.

Lemma unsupported_interface_raises_on_call_witness :
  exists m,
    @expansion_jacobian__call__ (list Z) Z (list Z) numpy_tape
      (fun _ _ => ret []) [1%Z; 2%Z] [3%Z; 4%Z]
      (@expansion_jacobian__init__ (list Z) [1%Z; 2%Z] 1 None)
    = (Raise (TypeError m), @expansion_jacobian__init__ (list Z) [1%Z; 2%Z] 1 None).
Proof.
  apply (@unsupported_interface_raises_on_call (list Z) Z (list Z) numpy_tape
           (fun _ _ => ret []) [1%Z; 2%Z] 1 None [3%Z; 4%Z]).
  unfold supported_interfaces. cbn. intros Hin.
  repeat (apply elem_of_cons in Hin as [Hin | Hin]; [discriminate Hin |]).
  by apply elem_of_nil in Hin.
Defined.

Lemma preprocess_each_app {V} (gp : nat -> list V) (qnode : QNode)
    (calls : list Args) (args : Args) (w : World) :
  preprocess_each gp qnode (calls ++ [args]) w
  = (direct_preprocessing gp qnode args (preprocess_each gp qnode calls w)).2.
Proof.
  revert w. induction calls as [| a calls IH]; intros w; [reflexivity |].
  cbn [preprocess_each app]. apply IH.
Qed.

Lemma direct_preprocessing_run {V} (gp : nat -> list V) (qnode : QNode)
    (args : Args) (w : World) :
  direct_preprocessing gp qnode args w
  = match construct qnode args with
    | Return t => (Return (gp t), mkWorld (Some t) (events w ++ [Constructed args]))
    | Raise e => (Raise e, mkWorld (qtape w) (events w ++ [Constructed args]))
    end.
Proof.
  unfold direct_preprocessing, qnode_construct, qnode_qtape, log, bind, modify, lift, ret.
  cbn [qtape events]. by destruct (construct qnode args).
Qed.

(** X9: the direct-mode extractor.  Building it runs nothing, and for an
    interface without adapter it is [None].  Each call of its
    preprocessing function constructs the circuit once more from that
    call's arguments and returns the parameters of the tape just built;
    after any number of successful calls the circuit's tape is the one
    built by the last call, and there was one construction per call, in
    order.  When construction raises, the exception propagates and no
    parameters are read. *)
Theorem direct_preprocessing_reconstructs {V : Type} (gp : nat -> list V)
    (qnode : QNode) (calls : list Args) (ts : list nat) (w : World) :
  Forall2 (fun a t => construct qnode a = Return t) calls ts ->
  let before := preprocess_each gp qnode calls w in
  events before = events w ++ (Constructed <$> calls) /\
  qtape before = (if ts is [] then qtape w else last ts) /\
  (forall args t, construct qnode args = Return t ->
     direct_preprocessing gp qnode args before
     = (Return (gp t), mkWorld (Some t) (events before ++ [Constructed args]))) /\
  (forall args e, construct qnode args = Raise e ->
     (direct_preprocessing gp qnode args before).1 = Raise e /\
     events (direct_preprocessing gp qnode args before).2
     = events before ++ [Constructed args]) /\
  (interface qnode ∉ supported_interfaces -> classical_jacobian gp qnode = None).
Proof.
  intros Hcalls before.
  assert (Hbefore : events before = events w ++ (Constructed <$> calls) /\
                    qtape before = (if ts is [] then qtape w else last ts)).
  { subst before. revert w. induction Hcalls as [| a t calls ts Ha Hrest IH]; intros w.
    - simpl. by rewrite app_nil_r.
    - cbn [preprocess_each]. rewrite direct_preprocessing_run, Ha. cbn [snd].
      destruct (IH (mkWorld (Some t) (events w ++ [Constructed a]))) as [-> ->].
      cbn [qtape events]. rewrite fmap_cons, <- app_assoc. split; [reflexivity |].
      by destruct ts. }
  destruct Hbefore as [Hev Hqt]. split; [exact Hev |]. split; [exact Hqt |].
  split; [| split].
  - intros args t Ht. by rewrite direct_preprocessing_run, Ht.
  - intros args e He. by rewrite direct_preprocessing_run, He.
  - intros Hi. unfold classical_jacobian, _make_jacobian_fn, supported_interfaces in *.
    repeat case_decide; try reflexivity; exfalso; apply Hi;
      match goal with Heq : interface _ = _ |- _ => rewrite Heq end;
      repeat constructor.
Qed.

Lemma direct_preprocessing_reconstructs_witness :
  qtape (preprocess_each (fun t => [Z.of_nat t]) counting_circuit [[1%Z]; [2%Z]] empty_world)
  = Some 12.
Proof.
  assert (H : Forall2 (fun a t => construct counting_circuit a = Return t)
                [[1%Z]; [2%Z]] [11; 12]) by (repeat constructor).
  exact (proj1 (proj2 (direct_preprocessing_reconstructs (fun t => [Z.of_nat t])
                         counting_circuit [[1%Z]; [2%Z]] [11; 12] empty_world H))).
Defined.

(** ** Transforms and the queuing context *)

Lemma queued_by_bound (cs : list Cmd) (m : nat) (o : Obj) :
  o ∈ queued_by m cs -> obj_id o < m + instantiations cs \/ o ∈ requeued cs.
Proof.
  revert m. induction cs as [| [d | x] cs IH]; intros m; simpl.
  - by intros ?%elem_of_nil.
  - rewrite instantiations_Instantiate.
    intros [-> | H]%elem_of_cons; [left; simpl; lia |].
    destruct (IH _ H) as [? | ?]; [left; lia | by right].
  - change (instantiations (Requeue x :: cs)) with (instantiations cs).
    intros [-> | H]%elem_of_cons; [right; by left |].
    destruct (IH _ H) as [? | ?]; [by left | right; by right].
Qed.

Lemma output_queue_ids (b : Body) (n : nat) (o : Obj) :
  Forall (fun o => obj_id o < n) (requeued (cmds b)) ->
  o ∈ objects (output_queue n b) -> obj_id o < S n + instantiations (cmds b).
Proof.
  intros Hre Ho. unfold output_queue in Ho.
  apply objects_enqueue_elem in Ho as [Ho | Ho]; [by apply elem_of_nil in Ho |].
  rewrite objects_bare in Ho. apply queued_by_bound in Ho as [Ho | Ho]; [exact Ho |].
  rewrite Forall_forall in Hre. apply Hre in Ho. lia.
Qed.

(** X10: a call of a registered single-tape transform on a tape whose
    class does not yet have the non-queuing mixin keeps the queuing
    context well formed and leaves the context stack and the recording
    scope what they were; on normal return the output tape is not on
    the stack and has the class of the input tape (the mixin is gone
    again), so it can be the input of a further transform. *)
Theorem transform_keeps_context_well_formed
    (self : single_tape_transform) (tape : nat) (args : Args) (σ : Context) (T : Tape) :
  wf σ ->
  heap σ !! tape = Some T ->
  non_queuing (tape_class T) = false ->
  recording_scope σ <> Some tape ->
  let b := tf_body (transform_fn self) T args in
  Forall (fun o => obj_id o < next_id σ) (requeued (cmds b)) ->
  let run := single_tape_transform__call__ self tape args σ in
  wf run.2 /\
  _active_contexts run.2 = _active_contexts σ /\
  recording_scope run.2 = recording_scope σ /\
  (raises b = None ->
   run.1 = Return (next_id σ) /\
   (next_id σ ∉ _active_contexts run.2) /\
   exists Tout, heap run.2 !! next_id σ = Some Tout /\
                tape_class Tout = tape_class T /\
                non_queuing (tape_class Tout) = false /\
                _queue Tout = output_queue (next_id σ) b).
Proof.
  intros Hwf HT Hnq Hrt b Hre run. subst run.
  rewrite (single_tape_transform_run self tape args σ T Hwf HT Hnq Hrt Hre). fold b.
  cbn [fst snd].
  pose proof (wf_fresh σ Hwf) as Hfresh.
  destruct σ as [h s n]. cbn [heap _active_contexts next_id] in *.
  set (Q := output_queue n b).
  set (Tfin := mkTape _ Q true).
  assert (Hhead : head s <> Some n).
  { destruct s as [| a s]; [done |]. simpl. intros [= ->].
    assert (n < n); [| lia]. apply (wf_stack_lt _ n Hwf). by left. }
  assert (Hscope : recording_scope
            (mkContext (<[n := Tfin]>
               match recording_scope (mkContext h s n) with
               | Some r => alter (with_queue (fun q => enqueue q Q)) r h
               | None => h
               end) s (S n + instantiations (cmds b)))
          = recording_scope (mkContext h s n)).
  { rewrite (recording_scope_insert_other _ s n) by exact Hhead.
    destruct (recording_scope (mkContext h s n)) as [r |] eqn:Hrec; [| exact Hrec].
    pose proof Hrec as (_ & R & HR & _)%recording_scope_Some.
    rewrite (alter_as_insert _ _ R) by exact HR.
    by eapply recording_scope_insert_same. }
  assert (Hns : n ∉ s).
  { intros Hin. pose proof (wf_stack_lt _ n Hwf Hin) as Hlt. cbn in Hlt. lia. }
  split; [| split; [reflexivity | split; [exact Hscope |]]].
  - split; cbn [heap _active_contexts next_id].
    + intros t T' [[<- _] | [_ Ht]]%lookup_insert_Some; [lia |].
      assert (is_Some (h !! t)) as [T'' HT''].
      { destruct (recording_scope (mkContext h s n)) as [r |]; [| eauto].
        destruct (decide (t = r)) as [-> | Hne].
        - rewrite lookup_alter_eq in Ht. destruct (h !! r); [eauto | discriminate].
        - rewrite lookup_alter_ne in Ht by congruence. eauto. }
      pose proof (wf_heap _ Hwf t T'' HT''). cbn in *. lia.
    + intros t T' o [[<- <-] | [Hne Ht]]%lookup_insert_Some Ho.
      * subst Tfin. cbn [_queue] in Ho. by apply output_queue_ids.
      * assert (forall R, h !! t = Some R -> o ∈ objects (_queue R) ->
                          obj_id o < S n + instantiations (cmds b)) as Hold.
        { intros R HR HoR. pose proof (wf_queue _ Hwf t R o HR HoR). cbn in *. lia. }
        destruct (recording_scope (mkContext h s n)) as [r |]; [| by eapply Hold].
        destruct (decide (t = r)) as [-> | Hne'].
        -- rewrite lookup_alter_eq in Ht. destruct (h !! r) as [R |] eqn:HR; [| discriminate].
           injection Ht as <-. cbn [with_queue _queue] in Ho.
           apply objects_enqueue_elem in Ho as [Ho | Ho]; [by eapply Hold |].
           by apply output_queue_ids.
        -- rewrite lookup_alter_ne in Ht by congruence. by eapply Hold.
    + intros t Ht. destruct (wf_stack _ Hwf t Ht) as [T' HT']. cbn [heap] in HT'.
      assert (t <> n) by (intros ->; congruence).
      rewrite lookup_insert_ne by congruence.
      destruct (recording_scope (mkContext h s n)) as [r |]; [| eauto].
      destruct (decide (t = r)) as [-> | Hne].
      * rewrite lookup_alter_eq, HT'. eauto.
      * rewrite lookup_alter_ne by congruence. eauto.
  - intros Hb. rewrite Hb. split; [reflexivity |]. split; [exact Hns |].
    exists Tfin. rewrite lookup_insert_eq. subst Tfin. rewrite Hb. done.
Qed.

Lemma transform_keeps_context_well_formed_witness :
  wf (single_tape_transform__call__ my_transform 2 [1%Z; 2%Z] recording_with_input).2.
Proof.
  assert (Hrt : recording_scope recording_with_input <> Some 2).
  { vm_compute. discriminate. }
  assert (Hre : Forall (fun o => obj_id o < next_id recording_with_input)
                  (requeued (cmds (tf_body (transform_fn my_transform) input_tape
                                     [1%Z; 2%Z])))).
  { cbn. repeat constructor. }
  exact (proj1 (transform_keeps_context_well_formed my_transform 2 [1%Z; 2%Z]
                  recording_with_input input_tape recording_with_input_wf eq_refl
                  eq_refl Hrt Hre)).
Defined.

(** What [make_tape] leaves behind, for use by what runs after it. *)
Lemma make_tape_after (fn : QFunc) (args : Args) (σ : Context) :
  wf σ ->
  let made := (make_tape fn args σ).2 in
  let T := mkTape (make_tape_class σ)
             (bare (created (S (next_id σ)) (qops (fn args)))) true in
  wf made /\
  next_id made = S (next_id σ) + length (qops (fn args)) /\
  _active_contexts made = _active_contexts σ /\
  heap made !! next_id σ = Some T /\
  recording_scope made = recording_scope σ /\
  recording_scope made <> Some (next_id σ) /\
  (forall t R, heap σ !! t = Some R -> heap made !! t = Some R).
Proof.
  intros Hwf made T.
  pose proof (make_tape_wf fn args σ Hwf) as Hwf'. fold made in Hwf'.
  assert (Hmade : made = mkContext (<[next_id σ := T]> (heap σ)) (_active_contexts σ)
                           (S (next_id σ) + length (qops (fn args)))).
  { subst made. by rewrite make_tape_run. }
  pose proof (wf_fresh σ Hwf) as Hfresh.
  assert (Hhead : head (_active_contexts σ) <> Some (next_id σ)).
  { destruct (_active_contexts σ) as [| a s] eqn:Hs; [done |]. simpl. intros [= ->].
    assert (next_id σ < next_id σ); [| lia].
    apply (wf_stack_lt _ _ Hwf). rewrite Hs. by left. }
  assert (Hscope : recording_scope made = recording_scope σ).
  { rewrite Hmade. destruct σ as [h s n]. cbn [heap _active_contexts next_id] in *.
    by apply (recording_scope_insert_other h s n). }
  split; [exact Hwf' |]. rewrite Hmade at 1 2 3. cbn [heap _active_contexts next_id].
  split; [reflexivity |]. split; [reflexivity |].
  split; [by rewrite lookup_insert_eq |]. split; [exact Hscope |]. split.
  - rewrite Hscope. destruct σ as [h s n]. cbn [heap _active_contexts next_id] in *.
    intros (Hs & _)%recording_scope_Some. by apply Hhead.
  - intros t R HR. rewrite Hmade. cbn [heap].
    rewrite lookup_insert_ne; [exact HR |]. intros <-. congruence.
Qed.

(** X11: errors pass through the function that [qfunc_transform]
    builds.  When the quantum function raises, the decorated function
    raises the same exception and the transform is never applied: the
    context is as [make_tape] left it.  When the quantum function
    returns but the materialized tape has a class with the non-queuing
    mixin (the class of the tape active at the call), the transform
    raises [TypeError] before its body runs, and the context is as
    [make_tape] left it.  When the class can be fused and the transform
    body raises, the decorated function raises the body's exception.
    In every case the context stack after the call is that of before
    the call. *)
Theorem qfunc_wrapper_propagates_errors
    (t : single_tape_transform) (targs : Args) (fn : QFunc) (args : Args) (σ : Context) :
  wf σ ->
  let made := make_tape fn args σ in
  let T := mkTape (make_tape_class σ)
             (bare (created (S (next_id σ)) (qops (fn args)))) true in
  let b := tf_body (transform_fn t) T targs in
  let run := qfunc_internal_wrapper t targs fn args σ in
  (forall e, qraises (fn args) = Some e -> run = (Raise e, made.2)) /\
  (qraises (fn args) = None -> non_queuing (tape_class T) = true ->
   (exists m, run.1 = Raise (TypeError m)) /\ run.2 = made.2) /\
  (forall e, qraises (fn args) = None -> non_queuing (tape_class T) = false ->
             raises b = Some e -> run.1 = Raise e) /\
  _active_contexts run.2 = _active_contexts σ.
Proof.
  intros Hwf made T b run.
  destruct (make_tape_after fn args σ Hwf) as (Hwf' & Hnext & Hstack & HT & _ & Hrt & _).
  fold made in Hwf', Hnext, Hstack, HT, Hrt. fold T in HT.
  assert (Hmade : made.1 = match qraises (fn args) with
                           | Some e => Raise e
                           | None => Return (next_id σ)
                           end).
  { subst made. by rewrite make_tape_run. }
  assert (Hfail : forall e, qraises (fn args) = Some e -> run = (Raise e, made.2)).
  { intros e He. subst run. unfold qfunc_internal_wrapper, bind. fold made.
    rewrite He in Hmade. destruct made as [o σ']. cbn [fst snd] in *. by subst o. }
  assert (Hfused : qraises (fn args) = None -> non_queuing (tape_class T) = true ->
            run = (Raise (TypeError "Cannot create a consistent method resolution order (MRO) for bases NonQueuingTape"),
                   made.2)).
  { intros Hfn Hnq. subst run. unfold qfunc_internal_wrapper, bind. fold made.
    rewrite Hfn in Hmade. destruct made as [o σ'] eqn:Hm. cbn [fst snd] in *. subst o.
    by rewrite (single_tape_transform_fused t (next_id σ) targs σ' T HT Hnq). }
  assert (Hrun : non_queuing (tape_class T) = false ->
            single_tape_transform__call__ t (next_id σ) targs made.2
            = (match raises b with
               | Some e => Raise e
               | None => Return (next_id made.2)
               end,
               (single_tape_transform__call__ t (next_id σ) targs made.2).2) /\
            _active_contexts (single_tape_transform__call__ t (next_id σ) targs made.2).2
            = _active_contexts made.2).
  { intros Hnq.
    pose proof (single_tape_transform_run_raw t (next_id σ) targs made.2 T Hwf' HT Hnq Hrt)
      as Hraw. cbv zeta in Hraw. fold b in Hraw. rewrite Hraw. done. }
  assert (Hbody : forall e, qraises (fn args) = None ->
            non_queuing (tape_class T) = false -> raises b = Some e ->
            run = (Raise e, (single_tape_transform__call__ t (next_id σ) targs made.2).2)).
  { intros e Hfn Hnq Hb. destruct (Hrun Hnq) as [Hcall _].
    subst run. unfold qfunc_internal_wrapper, bind. fold made.
    rewrite Hfn in Hmade. destruct made as [o σ'] eqn:Hm. cbn [fst snd] in *. subst o.
    rewrite Hcall, Hb. reflexivity. }
  split; [exact Hfail |]. split; [| split].
  - intros Hfn Hnq. rewrite (Hfused Hfn Hnq). split; [by eexists | reflexivity].
  - intros e Hfn Hnq Hb. by rewrite (Hbody e Hfn Hnq Hb).
  - destruct (qraises (fn args)) as [e |] eqn:Hfn.
    + rewrite (Hfail e eq_refl). exact Hstack.
    + destruct (non_queuing (tape_class T)) eqn:Hnq.
      * rewrite (Hfused eq_refl eq_refl). exact Hstack.
      * destruct (Hrun eq_refl) as [_ Hkeep].
        destruct (raises b) as [e |] eqn:Hb.
        -- rewrite (Hbody e eq_refl eq_refl eq_refl). cbn [snd].
           rewrite Hkeep. exact Hstack.
        -- destruct (qfunc_internal_wrapper_run t targs fn args σ Hwf Hfn Hnq Hb)
             as (_ & _ & _ & _ & Hnormal).
           subst run. rewrite Hnormal. cbn [snd]. fold made.
           rewrite Hkeep. exact Hstack.
Qed.

Lemma qfunc_wrapper_propagates_errors_witness :
  (qfunc_internal_wrapper requeue_all [] raising_qfunc [] active_RY).1
  = Raise (UserError "boom") /\
  _active_contexts (qfunc_internal_wrapper requeue_all [] raising_qfunc [] active_RY).2
  = [0].
Proof.
  destruct (qfunc_wrapper_propagates_errors requeue_all [] raising_qfunc [] active_RY
              active_RY_wf) as (Hfail & _ & _ & Hstack).
  split; [| exact Hstack].
  by rewrite (Hfail (UserError "boom") eq_refl).
Defined.

(** The tape [make_tape] builds has the class of the recording scope. *)
Lemma make_tape_class_recording (σ : Context) (r : nat) (R : Tape) :
  recording_scope σ = Some r -> heap σ !! r = Some R ->
  make_tape_class σ = tape_class R.
Proof.
  destruct σ as [h s n]. intros (Hhead & _)%recording_scope_Some HR.
  unfold make_tape_class, active_context. cbn [heap _active_contexts] in *.
  by rewrite Hhead, HR.
Qed.

(** X12: a decorated quantum function called while a scope [r] is
    recording whose class does not have the non-queuing mixin.  The
    scope receives the queue of the transformed tape, entry by entry
    after what it already held, so the operations the transform body
    instantiates are recorded by [r]; an operation of the original
    quantum function is recorded by [r] only if the body queued it
    again. *)
Theorem decorated_qfunc_records_transformed_operations
    (t : single_tape_transform) (targs : Args) (fn : QFunc) (args : Args)
    (σ : Context) (r : nat) (R : Tape) :
  wf σ ->
  recording_scope σ = Some r ->
  heap σ !! r = Some R ->
  non_queuing (tape_class R) = false ->
  qraises (fn args) = None ->
  let T := mkTape (make_tape_class σ)
             (bare (created (S (next_id σ)) (qops (fn args)))) true in
  let b := tf_body (transform_fn t) T targs in
  let out := S (next_id σ) + length (qops (fn args)) in
  raises b = None ->
  Forall (fun o => obj_id o < out) (requeued (cmds b)) ->
  let final := (qfunc_internal_wrapper t targs fn args σ).2 in
  let received := enqueue (_queue R) (output_queue out b) in
  heap final !! r = Some (mkTape (tape_class R) received (recording R)) /\
  (forall o, o ∈ instantiated_by (S out) (cmds b) -> o ∈ objects received) /\
  (forall o, o ∈ created (S (next_id σ)) (qops (fn args)) ->
             o ∈ objects received -> o ∈ requeued (cmds b)).
Proof.
  intros Hwf Hr HR HnqR Hfn T b out Hb Hre final received.
  assert (Hnq : non_queuing (tape_class T) = false).
  { subst T. cbn [tape_class]. by rewrite (make_tape_class_recording σ r R Hr HR). }
  destruct (make_tape_after fn args σ Hwf)
    as (Hwf' & Hnext & Hstack & HT & Hscope & Hrt & Hold).
  set (made := (make_tape fn args σ).2) in *. fold T in HT.
  assert (Hre' : Forall (fun o => obj_id o < next_id made) (requeued (cmds b))).
  { by rewrite Hnext. }
  destruct (qfunc_internal_wrapper_run t targs fn args σ Hwf Hfn Hnq Hb)
    as (_ & _ & _ & _ & Hnormal).
  subst final. rewrite Hnormal. cbn [snd]. fold made.
  rewrite (single_tape_transform_run t (next_id σ) targs made T Hwf' HT Hnq Hrt Hre').
  fold b. rewrite Hnext. fold out. cbn [snd heap]. rewrite Hscope, Hr.
  assert (Hq : Forall (fun x => obj_id x.1 < out) (_queue R)).
  { apply (Forall_objects (fun k => k < out)). intros o Ho.
    pose proof (wf_queue σ Hwf r R o HR Ho). unfold out. lia. }
  split; [| split].
  - assert (r <> out).
    { intros ->. pose proof (wf_heap σ Hwf _ R HR). unfold out in *. lia. }
    rewrite lookup_insert_ne by congruence.
    rewrite lookup_alter_eq. by rewrite (Hold r R HR).
  - intros o Ho. by apply (instantiated_in_output b out o (_queue R)).
  - intros o Ho Hin. subst received.
    pose proof (created_ids _ _ _ Ho) as Hlo.
    pose proof (created_ids_lt _ _ _ Ho) as Hhi.
    apply objects_enqueue_elem in Hin as [Hin | Hin].
    + pose proof (wf_queue σ Hwf r R o HR Hin). lia.
    + unfold output_queue in Hin.
      apply objects_enqueue_elem in Hin as [Hin | Hin]; [by apply elem_of_nil in Hin |].
      rewrite objects_bare in Hin.
      apply queued_by_elem in Hin as [Hin | Hin]; [unfold out in Hin; lia | exact Hin].
Qed.

Lemma decorated_qfunc_records_transformed_operations_witness :
  heap (qfunc_internal_wrapper my_transform [1%Z; 2%Z] ansatz [3%Z] active_RY).2 !! 0
  = Some (mkTape QuantumTape
            [(Operation 1 (RY 1), []);
             (Operation 3 Hadamard, []);
             (Operation 7 (mkOp "RX" [3%Z] [1] false), []);
             (Operation 8 (mkOp "RY" [6%Z] [1] false), []);
             (Operation 9 (mkOp "CZ" [] [1; 0] false), []);
             (Operation 5 expval_PauliZ, [])] true).
Proof.
  assert (Hre : Forall (fun o => obj_id o < S (next_id active_RY) + 3)
                  (requeued (cmds (tf_body (transform_fn my_transform)
                     (mkTape (make_tape_class active_RY)
                        (bare (created (S (next_id active_RY)) (qops (ansatz [3%Z]))))
                        true) [1%Z; 2%Z])))).
  { cbn. repeat constructor. }
  exact (proj1 (decorated_qfunc_records_transformed_operations my_transform [1%Z; 2%Z]
                  ansatz [3%Z] active_RY 0 _ active_RY_wf eq_refl eq_refl eq_refl
                  eq_refl eq_refl Hre)).
Defined.

Lemma queued_by_Requeue (os : list Obj) (n : nat) : queued_by n (Requeue <$> os) = os.
Proof.
  induction os as [| o os IH]; [done |].
  rewrite fmap_cons. cbn [queued_by]. by rewrite IH.
Qed.

Lemma objects_snoc (q : Queue) (o : Obj) (i : Info) :
  objects (q ++ [(o, i)]) = objects q ++ [o].
Proof. unfold objects. by rewrite fmap_app. Qed.

Lemma enqueue_bare_NoDup (os : list Obj) (q : Queue) :
  NoDup (obj_id <$> (objects q ++ os)) -> enqueue q (bare os) = q ++ bare os.
Proof.
  revert q. induction os as [| o os IH]; intros q Hnd.
  - simpl. by rewrite app_nil_r.
  - change (enqueue q (bare (o :: os))) with (enqueue (_append o [] q) (bare os)).
    assert (Hfresh : Forall (fun x => obj_id x.1 <> obj_id o) q).
    { apply Forall_forall. intros [x i] Hx Heq. simpl in Heq.
      rewrite fmap_app, fmap_cons in Hnd.
      apply NoDup_app in Hnd as (_ & Hdis & _).
      apply (Hdis (obj_id x)).
      - apply list_elem_of_fmap. exists x. split; [done |].
        unfold objects. apply list_elem_of_fmap. by exists (x, i).
      - rewrite Heq. by left. }
    rewrite _append_fresh by exact Hfresh. rewrite IH.
    + rewrite <- app_assoc. reflexivity.
    + rewrite objects_snoc, <- app_assoc. exact Hnd.
Qed.

Lemma filter_filter_disjoint {A} (P Q : A -> Prop)
    `{!forall x, Decision (P x), !forall x, Decision (Q x)} (l : list A) :
  (forall x, P x -> Q x -> False) -> filter P (filter Q l) = [].
Proof.
  intros Hdis. induction l as [| x l IH]; [done |].
  rewrite (filter_cons Q). case_decide as HQ; [| exact IH].
  rewrite (filter_cons P). case_decide as HP; [| exact IH].
  destruct (Hdis x HP HQ).
Qed.

Lemma operations_measurements_Permutation (T : Tape) :
  operations T ++ measurements T ≡ₚ objects (_queue T).
Proof.
  unfold operations, measurements.
  rewrite (list_filter_iff (fun o => measures o = true)
             (fun o => ~ measures o = false)).
  - apply filter_app_complement.
  - intros o. destruct (measures o); split; congruence.
Qed.

(** X13: a transform whose body queues every operation and measurement
    of the input tape again (the [else] branch of the docstring
    examples, alone), called on a tape whose class does not have the
    non-queuing mixin, reproduces the tape: the output tape has the
    class, the operations and the measurements of the input tape, in
    the same order. *)
Theorem requeueing_transform_reproduces_tape
    (self : single_tape_transform) (tape : nat) (args : Args) (σ : Context) (T : Tape) :
  wf σ ->
  heap σ !! tape = Some T ->
  non_queuing (tape_class T) = false ->
  recording_scope σ <> Some tape ->
  NoDup (obj_id <$> objects (_queue T)) ->
  tf_body (transform_fn self) T args
  = mkBody (Requeue <$> (operations T ++ measurements T)) None ->
  let run := single_tape_transform__call__ self tape args σ in
  run.1 = Return (next_id σ) /\
  exists Tout,
    heap run.2 !! next_id σ = Some Tout /\
    tape_class Tout = tape_class T /\
    objects (_queue Tout) = operations T ++ measurements T /\
    operations Tout = operations T /\
    measurements Tout = measurements T.
Proof.
  intros Hwf HT Hnq Hrt Hnd Hbody run. subst run.
  rewrite (single_tape_transform_run_raw self tape args σ T Hwf HT Hnq Hrt).
  rewrite Hbody. cbn [raises cmds fst snd heap].
  split; [reflexivity |]. eexists. rewrite lookup_insert_eq.
  split; [reflexivity |]. cbn [tape_class _queue].
  split; [reflexivity |].
  assert (Hq : output_queue (next_id σ)
                 (mkBody (Requeue <$> (operations T ++ measurements T)) None)
               = bare (operations T ++ measurements T)).
  { unfold output_queue. cbn [cmds]. rewrite queued_by_Requeue.
    rewrite enqueue_bare_NoDup; [reflexivity |]. cbn [objects fmap list_fmap app].
    by rewrite operations_measurements_Permutation. }
  rewrite Hq. split; [apply objects_bare |].
  unfold operations at 1, measurements at 2. cbn [_queue]. rewrite objects_bare.
  rewrite !filter_app. unfold operations, measurements.
  rewrite (list_filter_filter_r (fun o => measures o = false)
             (fun o => measures o = false)) by done.
  rewrite (list_filter_filter_r (fun o => measures o = true)
             (fun o => measures o = true)) by done.
  rewrite (filter_filter_disjoint (fun o => measures o = false)
             (fun o => measures o = true)) by (intros; congruence).
  rewrite (filter_filter_disjoint (fun o => measures o = true)
             (fun o => measures o = false)) by (intros; congruence).
  by rewrite app_nil_r.
Qed.

Lemma requeueing_transform_reproduces_tape_witness :
  (single_tape_transform__call__ requeue_all 2 [] recording_with_input).1 = Return 5.
Proof.
  assert (Hrt : recording_scope recording_with_input <> Some 2).
  { vm_compute. discriminate. }
  assert (Hnd : NoDup (obj_id <$> objects (_queue input_tape))).
  { by apply (bool_decide_unpack _). }
  exact (proj1 (requeueing_transform_reproduces_tape requeue_all 2 []
                  recording_with_input input_tape recording_with_input_wf eq_refl
                  eq_refl Hrt Hnd eq_refl)).
Defined.
